(** * Suspect: a shallow embedding of [suspect.c]

    The program reads a test script made of blocks.  The first line of a
    block names a program, which is forked behind two pipes; the following
    lines are commands ([exit], [want], [send], [exists], [size>], [echo],
    [endinput], [interactive], [limit]); a blank line closes the block.

    The embedding follows the C source function by function.  The globals
    of the program and the part of the operating system it talks to (the
    child at the other end of the pipes, the timer, the file system, the
    standard streams) are threaded as an explicit state.

    What the model takes from the platform:
    - a read through a null pointer raises SIGSEGV, for which the program
      installs [handle_sigs]; the other steps that C leaves undefined (a
      second [fclose] of a stream, output to a closed stream, a conversion
      of [fprintf] without its argument, [%d] of a number that does not
      fit an [int]) end the run as [Undefined];
    - a child is described by what it prints and how it ends as a function
      of what it was sent; a read from it that can never be served blocks
      for ever, unless an alarm is pending, which then rings;
    - whether a pending alarm rings while a command runs is decided by the
      world, line by line; it does not ring between commands;
    - when [execvp] fails the signal of the child reaches the parent once
      the parent is back at the top of its loop, the line counter already
      advanced, which is what the [--lineCount] of [handle_sigs] undoes;
    - memory is not modelled: [malloc] and [realloc] succeed and a string
      has the length of its content. *)

From Stdlib Require Import ZArith List Bool Ascii String Lia.
From Stdlib Require Import Decimal DecimalPos DecimalString.
Import ListNotations.

Local Open Scope string_scope.
Local Open Scope Z_scope.

(** ** Characters and C strings *)

Definition NUL : ascii := "000"%char.
Definition NL : ascii := "010"%char.
Definition SP : ascii := " "%char.

(** [#define BUFF_LEN 8] and the error codes. *)
Definition BUFF_LEN : nat := 8.
Definition ERR_COMMAND : Z := 1.
Definition ERR_BLOCK : Z := 2.
Definition ERR_LIMIT : Z := 3.
Definition ERR_OPEN : Z := 4.

(** The signals the program installs [handle_sigs] for. *)
Inductive signal := SIGALRM | SIGUSR1 | SIGPIPE | SIGSEGV.

(** [isspace] in the C locale: space, \t, \n, \v, \f, \r. *)
Definition isspace (c : ascii) : bool :=
  let n := nat_of_ascii c in
  (Nat.eqb n 32 || (Nat.leb 9 n && Nat.leb n 13))%bool.

Definition isdigit (c : ascii) : bool :=
  let n := nat_of_ascii c in (Nat.leb 48 n && Nat.leb n 57)%bool.

Definition digit_val (c : ascii) : Z := Z.of_nat (nat_of_ascii c) - 48.

(** What [strlen], [strcat] and [strcmp] see of a character array: the
    cells before the first NUL. *)
Fixpoint cstr (cells : string) : string :=
  match cells with
  | EmptyString => EmptyString
  | String c r => if Ascii.eqb c NUL then EmptyString else String c (cstr r)
  end.

Fixpoint no_char (x : ascii) (s : string) : bool :=
  match s with
  | EmptyString => true
  | String c r => (negb (Ascii.eqb c x) && no_char x r)%bool
  end.

(** A line of text as the script and the pipes carry it: free of NUL and
    of the line terminator. *)
Definition plain (s : string) : bool := (no_char NUL s && no_char NL s)%bool.

(** ** [append_to_line] and [get_line] *)

(** [append_to_line(line, buffer)]: [strcat] after a [realloc] to fit.  (A
    failed [realloc] is not modelled.) *)
Definition append_to_line (line buffer : string) : string :=
  line ++ cstr buffer.

(** What a [FILE *] delivers once the characters at hand are used up: the
    end of the file, or nothing yet (a pipe whose writer is still alive). *)
Inductive tail_kind := AtEOF | Pending.

Inductive read_result :=
| Line (l : option string) (rest : string)   (* NULL is [None] *)
| WouldBlock.

(** The [while((c = fgetc(input)) != EOF)] loop of [get_line].  [buffer]
    holds the [cCount] cells written so far (the cell after them is the
    NUL the loop keeps writing). *)
Fixpoint get_line_loop (tl : tail_kind) (input line buffer : string)
         (cCount : nat) : read_result :=
  match input with
  | EmptyString =>
      match tl with
      | Pending => WouldBlock
      | AtEOF =>
          if Nat.eqb cCount 0 then Line None EmptyString
          else Line (Some (append_to_line line buffer)) EmptyString
      end
  | String c rest =>
      if Ascii.eqb c NL then Line (Some (append_to_line line buffer)) rest
      else if Nat.ltb cCount (BUFF_LEN - 1)
      then get_line_loop tl rest line (buffer ++ String c EmptyString) (S cCount)
      else get_line_loop tl rest (append_to_line line buffer)
                         (String c EmptyString) 1
  end.

Definition get_line (tl : tail_kind) (input : string) : read_result :=
  get_line_loop tl input EmptyString EmptyString 0.

(** [block_end(line)]: [!strcmp(line, "")]. *)
Definition block_end (line : string) : bool := String.eqb line "".

(** ** [strtok] *)

Fixpoint mem_char (c : ascii) (ds : list ascii) : bool :=
  match ds with
  | [] => false
  | d :: r => (Ascii.eqb c d || mem_char c r)%bool
  end.

Fixpoint skip_delims (ds : list ascii) (s : string) : string :=
  match s with
  | EmptyString => EmptyString
  | String c r => if mem_char c ds then skip_delims ds r else s
  end.

(** The token that starts at [s] and what [strtok] keeps for the next
    call (the text after the delimiter that ended the token). *)
Fixpoint take_token (ds : list ascii) (s : string) : string * string :=
  match s with
  | EmptyString => (EmptyString, EmptyString)
  | String c r =>
      if mem_char c ds then (EmptyString, r)
      else let (t, k) := take_token ds r in (String c t, k)
  end.

(** One call of [strtok] on the text [s] it is positioned at: [None] is the
    NULL it returns when only delimiters are left. *)
Definition strtok (ds : list ascii) (s : string) : option (string * string) :=
  match skip_delims ds s with
  | EmptyString => None
  | s' => Some (take_token ds s')
  end.

(** [while((token = strtok(NULL, "\n")) != NULL) params = token;] *)
Fixpoint params_loop (fuel : nat) (saved : string) (params : option string)
  : option string :=
  match fuel with
  | O => params
  | S f =>
      match strtok [NL] saved with
      | None => params
      | Some (t, k) => params_loop f k (Some t)
      end
  end.

(** The split of a command line done in [parse_input]: the command (NULL
    when the line holds only separators) and its parameters. *)
Definition split_command (line : string) : option string * option string :=
  match strtok [SP; NL] line with
  | None => (None, params_loop (S (String.length line)) EmptyString None)
  | Some (command, saved) =>
      (Some command, params_loop (S (String.length saved)) saved None)
  end.

(** ** [sscanf] conversions *)

Fixpoint skip_space (s : string) : string :=
  match s with
  | EmptyString => EmptyString
  | String c r => if isspace c then skip_space r else s
  end.

Fixpoint scan_digits (s : string) (acc : Z) : Z * string :=
  match s with
  | EmptyString => (acc, EmptyString)
  | String c r =>
      if isdigit c then scan_digits r (acc * 10 + digit_val c) else (acc, s)
  end.

Definition starts_digit (s : string) : bool :=
  match s with
  | EmptyString => false
  | String c _ => isdigit c
  end.

(** [%d]: white space, an optional sign, at least one digit.  The value is
    the mathematical one; whether it fits an [int] is tested by the
    caller of this function. *)
Definition scan_d (s : string) : option (Z * string) :=
  match skip_space s with
  | EmptyString => None
  | String c r as s' =>
      if Ascii.eqb c "-"%char then
        if starts_digit r then
          let (v, k) := scan_digits r 0 in Some (- v, k)
        else None
      else if Ascii.eqb c "+"%char then
        if starts_digit r then Some (scan_digits r 0) else None
      else if isdigit c then Some (scan_digits s' 0)
      else None
  end.

Fixpoint take_word (s : string) : string * string :=
  match s with
  | EmptyString => (EmptyString, EmptyString)
  | String c r =>
      if isspace c then (EmptyString, s)
      else let (t, k) := take_word r in (String c t, k)
  end.

(** [%s]: white space, then the characters up to the next white space;
    fails when none is left. *)
Definition scan_s (s : string) : option (string * string) :=
  match skip_space s with
  | EmptyString => None
  | s' => Some (take_word s')
  end.

Definition INT_MIN : Z := - 2 ^ 31.
Definition INT_MAX : Z := 2 ^ 31 - 1.
Definition in_int (v : Z) : bool := ((INT_MIN <=? v) && (v <=? INT_MAX))%bool.

(** What [sscanf(params, "%d%c", &n, &delimiter)] leaves behind when it
    converts at least one item: [n] and [delimiter] (which keeps its
    initial ['\0'] when no character follows the number). *)
Definition scan_d_c (params : string) : option (Z * ascii) :=
  match scan_d params with
  | None => None
  | Some (n, EmptyString) => Some (n, NUL)
  | Some (n, String c _) => Some (n, c)
  end.

(** [sscanf(params, "%d %s", &n, extra) < 2] fails; otherwise [n] and
    [extra]. *)
Definition scan_d_s (params : string) : option (Z * string) :=
  match scan_d params with
  | None => None
  | Some (n, k) =>
      match scan_s k with
      | None => None
      | Some (extra, _) => Some (n, extra)
      end
  end.

(** [sscanf(params, "%s %*s", extra) < 1] fails; otherwise [extra]. *)
Definition scan_word (params : string) : option string :=
  match scan_s params with
  | None => None
  | Some (extra, _) => Some extra
  end.

(** ** [printf] *)

(** ["%d"] *)
Definition dec (n : Z) : string := NilZero.string_of_int (Z.to_int n).

(** A format string printed without arguments, as [handle_send] does with
    [fprintf(writePipe, message)]: [%%] prints one [%]; any other
    conversion asks for an argument that was not passed, which C leaves
    undefined ([None]). *)
Fixpoint format_noargs (fmt : string) : option string :=
  match fmt with
  | EmptyString => Some EmptyString
  | String c r =>
      if Ascii.eqb c "%"%char then
        match r with
        | String c' r' =>
            if Ascii.eqb c' "%"%char
            then option_map (String "%"%char) (format_noargs r')
            else None
        | EmptyString => None
        end
      else option_map (String c) (format_noargs r)
  end.

(** ** The environment

    The operating system is the part of the state the program cannot
    compute by itself.  Everything the program asks of it is answered by a
    [world], which the theorems quantify over. *)

(** How a child ends, and the status [wait] stores for it (the encoding
    of [<sys/wait.h>]: exit code in bits 8 to 15, signal in bits 0 to 6,
    core flag in bit 7). *)
Inductive termination :=
| Exited (code : Z)
| Signaled (sig : Z) (core : bool).

Definition wait_status (t : termination) : Z :=
  match t with
  | Exited code => Z.shiftl (Z.land code 255) 8
  | Signaled sig core => Z.lor (Z.land sig 127) (if core then 128 else 0)
  end.

(** [WIFEXITED(status)] *)
Definition WIFEXITED (status : Z) : bool := Z.land status 127 =? 0.

(** What the parent does to the standard input of its child. *)
Inductive stim :=
| Wrote (bytes : string)
| ClosedInput.

Inductive write_result := WriteOk | WriteError | BrokenPipe.

(** A program under test, seen from the two pipes.  Its behaviour is a
    function of what it was sent so far: what it prints when it starts,
    what it prints when more arrives, whether a write to its input
    succeeds, fails, or finds the pipe without a reader, and whether and
    how it has ended. *)
Record program := {
  p_start : string;
  p_react : list stim -> stim -> string;
  p_accept : list stim -> string -> write_result;
  p_end : list stim -> option termination
}.

(** [pipe], [fork] and [execvp] for one block. *)
Inductive spawn_result :=
| SysFail (errno : Z)                      (* [pipe] or [fork] failed *)
| ExecFail (child_pid : positive)          (* [execvp] returned *)
| Started (child_pid : positive) (p : program).

Record world := {
  w_exec : Z -> list string -> spawn_result; (* block number, argv *)
  w_fopen : string -> option string;         (* content of a readable file *)
  w_stdin : string;                          (* content of standard input *)
  w_access : string -> bool;                 (* [access(path, F_OK) == 0] *)
  w_stat : string -> option Z;               (* [st_size] when [stat] succeeds *)
  w_deadline : Z -> bool  (* the pending alarm rings during the command
                             of this line *)
}.

(** ** The state *)

(** A [FILE *] global: never assigned, open, or closed by [fclose]. *)
Inductive stream := NoFile | OpenFile | ClosedFile.

(** The child of the current block: its program, what it was sent, what it
    printed that was not read yet, and whether [wait] collected it. *)
Record proc := {
  pr_prog : program;
  pr_hist : list stim;
  pr_out : string;
  pr_reaped : bool
}.

(** The counters are [int]s in the source.  They grow by one per line or
    block, so that they stay far from [INT_MAX] for any script of fewer
    than 2^31 lines; they are integers here. *)
Record state := {
  (* the globals of suspect.c *)
  blockCount : Z;
  lineCount : Z;
  sawExit : bool;
  sawLimit : bool;
  readPipe : stream;
  writePipe : stream;
  pid : Z;
  childStatus : Z;
  echo : bool;
  (* the operating system *)
  child : option proc;
  timer : Z;                  (* seconds of the pending [alarm], 0 for none *)
  pending : option signal;    (* sent to this process, not delivered yet *)
  stdout : string;            (* printed so far *)
  stdin : string;             (* standard input not read yet *)
  script : string;            (* script file not read yet *)
  killed : list Z             (* pids that were sent SIGINT *)
}.

Definition set_blockCount (v : Z) (st : state) : state :=
  {| blockCount := v; lineCount := lineCount st; sawExit := sawExit st;
     sawLimit := sawLimit st; readPipe := readPipe st;
     writePipe := writePipe st; pid := pid st; childStatus := childStatus st;
     echo := echo st; child := child st; timer := timer st;
     pending := pending st; stdout := stdout st; stdin := stdin st;
     script := script st; killed := killed st |}.

Definition set_lineCount (v : Z) (st : state) : state :=
  {| blockCount := blockCount st; lineCount := v; sawExit := sawExit st;
     sawLimit := sawLimit st; readPipe := readPipe st;
     writePipe := writePipe st; pid := pid st; childStatus := childStatus st;
     echo := echo st; child := child st; timer := timer st;
     pending := pending st; stdout := stdout st; stdin := stdin st;
     script := script st; killed := killed st |}.

Definition set_sawExit (v : bool) (st : state) : state :=
  {| blockCount := blockCount st; lineCount := lineCount st; sawExit := v;
     sawLimit := sawLimit st; readPipe := readPipe st;
     writePipe := writePipe st; pid := pid st; childStatus := childStatus st;
     echo := echo st; child := child st; timer := timer st;
     pending := pending st; stdout := stdout st; stdin := stdin st;
     script := script st; killed := killed st |}.

Definition set_sawLimit (v : bool) (st : state) : state :=
  {| blockCount := blockCount st; lineCount := lineCount st;
     sawExit := sawExit st; sawLimit := v; readPipe := readPipe st;
     writePipe := writePipe st; pid := pid st; childStatus := childStatus st;
     echo := echo st; child := child st; timer := timer st;
     pending := pending st; stdout := stdout st; stdin := stdin st;
     script := script st; killed := killed st |}.

Definition set_readPipe (v : stream) (st : state) : state :=
  {| blockCount := blockCount st; lineCount := lineCount st;
     sawExit := sawExit st; sawLimit := sawLimit st; readPipe := v;
     writePipe := writePipe st; pid := pid st; childStatus := childStatus st;
     echo := echo st; child := child st; timer := timer st;
     pending := pending st; stdout := stdout st; stdin := stdin st;
     script := script st; killed := killed st |}.

Definition set_writePipe (v : stream) (st : state) : state :=
  {| blockCount := blockCount st; lineCount := lineCount st;
     sawExit := sawExit st; sawLimit := sawLimit st; readPipe := readPipe st;
     writePipe := v; pid := pid st; childStatus := childStatus st;
     echo := echo st; child := child st; timer := timer st;
     pending := pending st; stdout := stdout st; stdin := stdin st;
     script := script st; killed := killed st |}.

Definition set_pid (v : Z) (st : state) : state :=
  {| blockCount := blockCount st; lineCount := lineCount st;
     sawExit := sawExit st; sawLimit := sawLimit st; readPipe := readPipe st;
     writePipe := writePipe st; pid := v; childStatus := childStatus st;
     echo := echo st; child := child st; timer := timer st;
     pending := pending st; stdout := stdout st; stdin := stdin st;
     script := script st; killed := killed st |}.

Definition set_childStatus (v : Z) (st : state) : state :=
  {| blockCount := blockCount st; lineCount := lineCount st;
     sawExit := sawExit st; sawLimit := sawLimit st; readPipe := readPipe st;
     writePipe := writePipe st; pid := pid st; childStatus := v;
     echo := echo st; child := child st; timer := timer st;
     pending := pending st; stdout := stdout st; stdin := stdin st;
     script := script st; killed := killed st |}.

Definition set_echo (v : bool) (st : state) : state :=
  {| blockCount := blockCount st; lineCount := lineCount st;
     sawExit := sawExit st; sawLimit := sawLimit st; readPipe := readPipe st;
     writePipe := writePipe st; pid := pid st; childStatus := childStatus st;
     echo := v; child := child st; timer := timer st;
     pending := pending st; stdout := stdout st; stdin := stdin st;
     script := script st; killed := killed st |}.

Definition set_child (v : option proc) (st : state) : state :=
  {| blockCount := blockCount st; lineCount := lineCount st;
     sawExit := sawExit st; sawLimit := sawLimit st; readPipe := readPipe st;
     writePipe := writePipe st; pid := pid st; childStatus := childStatus st;
     echo := echo st; child := v; timer := timer st;
     pending := pending st; stdout := stdout st; stdin := stdin st;
     script := script st; killed := killed st |}.

Definition set_timer (v : Z) (st : state) : state :=
  {| blockCount := blockCount st; lineCount := lineCount st;
     sawExit := sawExit st; sawLimit := sawLimit st; readPipe := readPipe st;
     writePipe := writePipe st; pid := pid st; childStatus := childStatus st;
     echo := echo st; child := child st; timer := v;
     pending := pending st; stdout := stdout st; stdin := stdin st;
     script := script st; killed := killed st |}.

Definition set_pending (v : option signal) (st : state) : state :=
  {| blockCount := blockCount st; lineCount := lineCount st;
     sawExit := sawExit st; sawLimit := sawLimit st; readPipe := readPipe st;
     writePipe := writePipe st; pid := pid st; childStatus := childStatus st;
     echo := echo st; child := child st; timer := timer st;
     pending := v; stdout := stdout st; stdin := stdin st;
     script := script st; killed := killed st |}.

Definition set_stdout (v : string) (st : state) : state :=
  {| blockCount := blockCount st; lineCount := lineCount st;
     sawExit := sawExit st; sawLimit := sawLimit st; readPipe := readPipe st;
     writePipe := writePipe st; pid := pid st; childStatus := childStatus st;
     echo := echo st; child := child st; timer := timer st;
     pending := pending st; stdout := v; stdin := stdin st;
     script := script st; killed := killed st |}.

Definition set_stdin (v : string) (st : state) : state :=
  {| blockCount := blockCount st; lineCount := lineCount st;
     sawExit := sawExit st; sawLimit := sawLimit st; readPipe := readPipe st;
     writePipe := writePipe st; pid := pid st; childStatus := childStatus st;
     echo := echo st; child := child st; timer := timer st;
     pending := pending st; stdout := stdout st; stdin := v;
     script := script st; killed := killed st |}.

Definition set_script (v : string) (st : state) : state :=
  {| blockCount := blockCount st; lineCount := lineCount st;
     sawExit := sawExit st; sawLimit := sawLimit st; readPipe := readPipe st;
     writePipe := writePipe st; pid := pid st; childStatus := childStatus st;
     echo := echo st; child := child st; timer := timer st;
     pending := pending st; stdout := stdout st; stdin := stdin st;
     script := v; killed := killed st |}.

Definition set_killed (v : list Z) (st : state) : state :=
  {| blockCount := blockCount st; lineCount := lineCount st;
     sawExit := sawExit st; sawLimit := sawLimit st; readPipe := readPipe st;
     writePipe := writePipe st; pid := pid st; childStatus := childStatus st;
     echo := echo st; child := child st; timer := timer st;
     pending := pending st; stdout := stdout st; stdin := stdin st;
     script := script st; killed := v |}.

(** [printf] on standard output, [kill(p, SIGINT)] and [alarm(n)] (whose
    parameter is an [unsigned int]). *)
Definition print (s : string) (st : state) : state :=
  set_stdout (stdout st ++ s) st.

Definition kill (p : Z) (st : state) : state :=
  set_killed (killed st ++ [p]) st.

Definition alarm (n : Z) (st : state) : state :=
  set_timer (n mod 2 ^ 32) st.

(** The child after the parent acted on its standard input. *)
Definition feed (s : stim) (c : proc) : proc :=
  {| pr_prog := pr_prog c;
     pr_hist := pr_hist c ++ [s];
     pr_out := pr_out c ++ p_react (pr_prog c) (pr_hist c) s;
     pr_reaped := pr_reaped c |}.

Definition drained (rest : string) (c : proc) : proc :=
  {| pr_prog := pr_prog c; pr_hist := pr_hist c; pr_out := rest;
     pr_reaped := pr_reaped c |}.

Definition reaped (c : proc) : proc :=
  {| pr_prog := pr_prog c; pr_hist := pr_hist c; pr_out := pr_out c;
     pr_reaped := true |}.

Definition ended (c : proc) : option termination :=
  p_end (pr_prog c) (pr_hist c).

(** The read end of the output pipe reports the end of the file once the
    child is gone; until then a read waits. *)
Definition pipe_tail (c : proc) : tail_kind :=
  match ended c with
  | Some _ => AtEOF
  | None => Pending
  end.

(** ** Results *)

(** Steps the C standard leaves undefined. *)
Inductive ub :=
| DoubleClose       (* [fclose] of a stream that was closed *)
| UseAfterClose     (* output to a stream that was closed *)
| NoStream          (* a [FILE *] that was never opened *)
| MissingArgument   (* a conversion of [fprintf] without its argument *)
| IntOverflow.      (* [%d] of a number that does not fit an [int] *)

(** How the process ends. *)
Inductive outcome :=
| Exit (code : Z) (st : state)     (* [exit(code)], or [main] returned it *)
| Returns (st : state)             (* [parse_input] returned *)
| Hang (st : state)                (* waits for ever on a pipe or a child *)
| Undefined (u : ub) (st : state)
| OutOfFuel.

(** How a handler ends. *)
Inductive result :=
| Ret (rc : Z) (st : state)        (* returned [rc] *)
| Raise (s : signal) (st : state)  (* the step raised a signal *)
| Blocks (st : state)              (* waits for ever *)
| Quit (code : Z) (st : state)     (* called [exit] *)
| Undef (u : ub) (st : state)
| NoFuel.

Definition initial (w : world) : state :=
  {| blockCount := 1; lineCount := 1; sawExit := false; sawLimit := false;
     readPipe := NoFile; writePipe := NoFile; pid := -1; childStatus := 0;
     echo := false; child := None; timer := 0; pending := None;
     stdout := EmptyString; stdin := w_stdin w; script := EmptyString;
     killed := [] |}.

(** ** [throw_error] and [handle_sigs] *)

Definition diagnostic (code i : Z) (s : option string) : string :=
  if code =? ERR_COMMAND then
    "Test failed on line " ++ dec i ++ "." ++ String NL EmptyString
  else if code =? ERR_BLOCK then
    "Block " ++ dec i ++ " ended without an exit." ++ String NL EmptyString
  else if code =? ERR_LIMIT then
    "Block " ++ dec i ++ " timed out." ++ String NL EmptyString
  else if code =? ERR_OPEN then
    "Failed to open " ++ match s with Some p => p | None => "(null)" end
      ++ "." ++ String NL EmptyString
  else EmptyString.

Definition throw_error (code i : Z) (s : option string) (st : state)
  : outcome :=
  let st1 := print (diagnostic code i s) st in
  let st2 := if negb (pid st1 =? -1) then kill (pid st1) st1 else st1 in
  Exit code st2.

Definition handle_sigs (sigNum : signal) (st : state) : outcome :=
  match sigNum with
  | SIGALRM => throw_error ERR_LIMIT (blockCount st) None st
  | SIGUSR1 =>
      let st1 := set_lineCount (lineCount st - 1) st in
      throw_error ERR_COMMAND (lineCount st1) None st1
  | SIGPIPE | SIGSEGV => throw_error ERR_COMMAND (lineCount st) None st
  end.

(** ** [cmd_to_argv] and [run_new_process] *)

(** The count of [cmd_to_argv]: one more for every space that is not
    followed by a space (the NUL that ends the string counts as such a
    follower). *)
Fixpoint count_args (cmd : string) : nat :=
  match cmd with
  | EmptyString => 0
  | String c r =>
      let next_is_space :=
        match r with
        | String c' _ => Ascii.eqb c' SP
        | EmptyString => false
        end in
      ((if (Ascii.eqb c SP && negb next_is_space)%bool then 1 else 0)
       + count_args r)%nat
  end.

(** All the tokens [strtok(., " ")] finds. *)
Fixpoint tokens (cmd cur : string) : list string :=
  match cmd with
  | EmptyString =>
      match cur with
      | EmptyString => []
      | _ => [cur]
      end
  | String c r =>
      if Ascii.eqb c SP then
        match cur with
        | EmptyString => tokens r EmptyString
        | _ => cur :: tokens r EmptyString
        end
      else tokens r (cur ++ String c EmptyString)
  end.

(** The argument vector, or [None] when the loop runs past the last token
    and calls [strlen(NULL)]. *)
Definition cmd_to_argv (cmd : string) : option (list string) :=
  let argc := S (count_args cmd) in
  let toks := tokens cmd EmptyString in
  if Nat.leb argc (List.length toks) then Some (firstn argc toks) else None.

Section Suspect.

Variable w : world.

(** The parent's side of [run_new_process].  When [execvp] fails the child
    sends SIGUSR1 to the parent; the signal stays pending until
    [parse_input] is back at the top of its loop. *)
Definition run_new_process (cmd : string) (st : state) : result :=
  if match cmd with String c _ => Ascii.eqb c SP | EmptyString => false end
  then Ret (-1) st
  else
    match cmd_to_argv cmd with
    | None => Raise SIGSEGV st
    | Some argv =>
        match w_exec w (blockCount st) argv with
        | SysFail errno => Quit errno st
        | ExecFail p =>
            Ret 0 (set_pending (Some SIGUSR1)
                     (set_child None
                        (set_writePipe OpenFile
                           (set_readPipe OpenFile
                              (set_pid (Z.pos p) st)))))
        | Started p prog =>
            let c := {| pr_prog := prog; pr_hist := [];
                        pr_out := p_start prog; pr_reaped := false |} in
            Ret 0 (set_child (Some c)
                     (set_writePipe OpenFile
                        (set_readPipe OpenFile
                           (set_pid (Z.pos p) st))))
        end
    end.

(** ** Reading the script and standard input *)

(** Where the script comes from: [get_input_source]. *)
Inductive source := FromStdin | FromFile.

(** [get_line] on a file that is complete. *)
Definition get_line_file (content : string) : option string * string :=
  match get_line AtEOF content with
  | Line l rest => (l, rest)
  | WouldBlock => (None, content)
  end.

Definition read_stdin (st : state) : option string * state :=
  let (l, rest) := get_line_file (stdin st) in (l, set_stdin rest st).

(** [get_line(input)] *)
Definition read_input (input : source) (st : state) : option string * state :=
  match input with
  | FromStdin => read_stdin st
  | FromFile =>
      let (l, rest) := get_line_file (script st) in (l, set_script rest st)
  end.

(** ** Command handlers *)

Definition is_delimiter (c : ascii) : bool :=
  (Ascii.eqb c SP || Ascii.eqb c NUL)%bool.

(** [wait(&childStatus)] followed by the test of [handle_exit]. *)
Definition exit_test (n : Z) (st : state) : result :=
  if (WIFEXITED (childStatus st) && (Z.shiftr (childStatus st) 8 =? n))%bool
  then Ret 1 st
  else Ret (-1) st.

Definition handle_exit (params : option string) (st : state) : result :=
  if sawExit st then Ret (-1) st
  else
    match params with
    | None => Ret (-1) st
    | Some p =>
        match scan_d_c p with
        | None => Ret (-1) st
        | Some (n, delimiter) =>
            if negb (in_int n) then Undef IntOverflow st
            else if ((n <? 0) || negb (is_delimiter delimiter))%bool
            then Ret (-1) st
            else
              let st1 := set_sawExit true st in
              match child st1 with
              | Some c =>
                  if pr_reaped c then exit_test n st1
                  else
                    match ended c with
                    | None => Blocks st1
                    | Some t =>
                        exit_test n
                          (set_childStatus (wait_status t)
                             (set_child (Some (reaped c)) st1))
                    end
              | None => exit_test n st1
              end
        end
    end.

Definition handle_want (params : option string) (st : state) : result :=
  match params with
  | None => Ret (-1) st
  | Some p =>
      match readPipe st, child st with
      | OpenFile, Some c =>
          match get_line (pipe_tail c) (pr_out c) with
          | WouldBlock => Blocks st
          | Line None rest =>
              (* [line] is NULL and is handed to [printf] and [strcmp] *)
              Raise SIGSEGV (set_child (Some (drained rest c)) st)
          | Line (Some line) rest =>
              let st1 := set_child (Some (drained rest c)) st in
              let st2 :=
                if echo st1 then print (line ++ String NL EmptyString) st1
                else st1 in
              if negb (String.eqb line p) then Ret (-1) st2 else Ret 2 st2
          end
      | ClosedFile, _ => Undef UseAfterClose st
      | _, _ => Undef NoStream st
      end
  end.

Definition handle_send (params : option string) (st : state) : result :=
  match params with
  | None => Ret (-1) st
  | Some p =>
      let message := p ++ String NL EmptyString in
      match writePipe st, child st with
      | OpenFile, Some c =>
          match format_noargs message with
          | None => Undef MissingArgument st
          | Some bytes =>
              match p_accept (pr_prog c) (pr_hist c) bytes with
              | WriteError => Ret (-1) st
              | BrokenPipe => Raise SIGPIPE st
              | WriteOk => Ret 3 (set_child (Some (feed (Wrote bytes) c)) st)
              end
          end
      | ClosedFile, _ => Undef UseAfterClose st
      | _, _ => Undef NoStream st
      end
  end.

Definition handle_exists (params : option string) (st : state) : result :=
  match params with
  | None => Ret (-1) st
  | Some p => if w_access w p then Ret 4 st else Ret (-1) st
  end.

Definition handle_size (params : option string) (st : state) : result :=
  match params with
  | None => Ret (-1) st
  | Some p =>
      match scan_d p with
      | None => Ret (-1) st
      | Some (n, k) =>
          if negb (in_int n) then Undef IntOverflow st
          else
            match scan_s k with
            | None => Ret (-1) st
            | Some (extra, _) =>
                match w_stat w extra with
                | None => Ret (-1) st
                | Some st_size =>
                    if st_size <=? n then Ret (-1) st else Ret 5 st
                end
            end
      end
  end.

Definition handle_echo (params : option string) (st : state) : result :=
  match params with
  | None => Ret (-1) st
  | Some p =>
      match scan_word p with
      | None => Ret (-1) st
      | Some extra =>
          if (negb (String.eqb extra "on") && negb (String.eqb extra "off"))%bool
          then Ret (-1) st
          else if String.eqb extra "on" then Ret 6 (set_echo true st)
          else Ret 6 (set_echo false st)
      end
  end.

Definition handle_endinput (st : state) : result :=
  match writePipe st with
  | OpenFile =>
      Ret 7 (set_child (option_map (feed ClosedInput) (child st))
               (set_writePipe ClosedFile st))
  | ClosedFile => Undef DoubleClose st
  | NoFile => Undef NoStream st
  end.

(** The [while((line = get_line(stdin)) != NULL)] loop of
    [handle_interactive].  What [handle_send] returns is dropped. *)
Fixpoint interactive_loop (fuel : nat) (interactive : string) (st : state)
  : result :=
  match fuel with
  | O => NoFuel
  | S f =>
      match read_stdin st with
      | (None, st1) => Ret 8 st1
      | (Some line, st1) =>
          if String.eqb line interactive then Ret 8 st1
          else
            match handle_send (Some line) st1 with
            | Ret _ st2 => interactive_loop f interactive st2
            | r => r
            end
      end
  end.

Definition handle_interactive (params : option string) (st : state) : result :=
  match params with
  | None => Ret (-1) st
  | Some p =>
      match scan_word p with
      | None => Ret (-1) st
      | Some interactive =>
          interactive_loop (S (String.length (stdin st))) interactive st
      end
  end.

Definition handle_limit (params : option string) (st : state) : result :=
  if sawLimit st then Ret (-1) st
  else
    match params with
    | None => Ret (-1) st
    | Some p =>
        match scan_d_c p with
        | None => Ret (-1) st
        | Some (n, delimiter) =>
            if negb (in_int n) then Undef IntOverflow st
            else if negb (is_delimiter delimiter) then Ret (-1) st
            else Ret 9 (set_sawLimit true (alarm n st))
        end
    end.

(** [command] is NULL ([None]) when [strtok] found no token; [strcmp]
    then reads through the null pointer. *)
Definition handle_command (command params : option string) (st : state)
  : result :=
  match command with
  | None => Raise SIGSEGV st
  | Some c =>
      if String.eqb c "exit" then handle_exit params st
      else if String.eqb c "want" then handle_want params st
      else if String.eqb c "send" then handle_send params st
      else if String.eqb c "exists" then handle_exists params st
      else if String.eqb c "size>" then handle_size params st
      else if String.eqb c "echo" then handle_echo params st
      else if String.eqb c "endinput" then handle_endinput st
      else if String.eqb c "interactive" then handle_interactive params st
      else if String.eqb c "limit" then handle_limit params st
      else Ret (-1) st
  end.

(** ** [parse_input] and [main] *)

(** One turn of the [while] loop ends the program or goes on with new
    values of [previousBlock] and of the globals. *)
Inductive step :=
| Next (previousBlock : Z) (st : state)
| Stop (o : outcome).

(** A read or a [wait] that never returns is cut short by the alarm when
    one is pending. *)
Definition blocked (st : state) : outcome :=
  if 0 <? timer st then handle_sigs SIGALRM st else Hang st.

Definition after (r : result) (k : Z -> state -> step) : step :=
  match r with
  | Ret rc st => k rc st
  | Raise s st => Stop (handle_sigs s st)
  | Blocks st => Stop (blocked st)
  | Quit code st => Stop (Exit code st)
  | Undef u st => Stop (Undefined u st)
  | NoFuel => Stop OutOfFuel
  end.

(** The [else] branch of the loop: the block has ended. *)
Definition end_block (st : state) : step :=
  if negb (sawExit st) then
    Stop (throw_error ERR_BLOCK (blockCount st) None st)
  else
    let st1 := set_child None (set_pid (-1) (kill (pid st) st)) in
    match readPipe st1, writePipe st1 with
    | OpenFile, OpenFile =>
        let st2 := set_writePipe ClosedFile (set_readPipe ClosedFile st1) in
        let st3 := set_sawExit false (set_sawLimit false (alarm 0 st2)) in
        let previousBlock := blockCount st3 in
        let st4 := set_blockCount (blockCount st3 + 1) st3 in
        Next previousBlock (set_lineCount (lineCount st4 + 1) st4)
    | NoFile, _ => Stop (Undefined NoStream st1)
    | ClosedFile, _ => Stop (Undefined DoubleClose st1)
    | OpenFile, NoFile =>
        Stop (Undefined NoStream (set_readPipe ClosedFile st1))
    | OpenFile, ClosedFile =>
        Stop (Undefined DoubleClose (set_readPipe ClosedFile st1))
    end.

(** The body of the loop for the line just read.  The alarm of the block
    may ring while a command runs. *)
Definition loop_body (line : string) (previousBlock : Z) (st : state)
  : step :=
  if negb (block_end line) then
    if negb (previousBlock =? blockCount st) then
      after (run_new_process line st) (fun rc st1 =>
        if negb (rc =? 0) then
          Stop (throw_error ERR_COMMAND (lineCount st1) None st1)
        else Next (blockCount st1) (set_lineCount (lineCount st1 + 1) st1))
    else if ((0 <? timer st) && w_deadline w (lineCount st))%bool then
      Stop (handle_sigs SIGALRM st)
    else
      let (command, params) := split_command line in
      after (handle_command command params st) (fun rc st1 =>
        if rc =? -1 then
          Stop (throw_error ERR_COMMAND (lineCount st1) None st1)
        else Next previousBlock (set_lineCount (lineCount st1 + 1) st1))
  else end_block st.

(** The loop of [parse_input].  A signal that is pending is delivered
    before the next line is read. *)
Fixpoint parse_loop (fuel : nat) (input : source) (previousBlock : Z)
         (st : state) : outcome :=
  match fuel with
  | O => OutOfFuel
  | S f =>
      match pending st with
      | Some s => handle_sigs s (set_pending None st)
      | None =>
          match read_input input st with
          | (None, st1) => Returns st1
          | (Some line, st1) =>
              match loop_body line previousBlock st1 with
              | Next previousBlock' st2 => parse_loop f input previousBlock' st2
              | Stop o => o
              end
          end
      end
  end.

(** Every turn of the loop reads at least one character of the script,
    and nothing is ever put back: this bounds the number of turns. *)
Definition unread (st : state) : nat :=
  (String.length (script st) + String.length (stdin st))%nat.

Definition run_from (input : source) (previousBlock : Z) (st : state)
  : outcome :=
  parse_loop (S (unread st)) input previousBlock st.

Definition parse_input (input : source) (st : state) : outcome :=
  run_from input 0 st.

(** [get_input_source], with [args] the arguments after the program
    name: the source of the script, or the end of the program when the
    file cannot be opened. *)
Definition get_input_source (args : list string) (st : state)
  : source * state + outcome :=
  match args with
  | [] => inl (FromStdin, st)
  | path :: _ =>
      match w_fopen w path with
      | None => inr (throw_error ERR_OPEN 0 (Some path) st)
      | Some content => inl (FromFile, set_script content st)
      end
  end.

(** [return 0] once [parse_input] is back. *)
Definition finish (o : outcome) : outcome :=
  match o with
  | Returns st => Exit 0 st
  | _ => o
  end.

Definition main (args : list string) : outcome :=
  match get_input_source args (initial w) with
  | inr o => o
  | inl (input, st) => finish (parse_input input st)
  end.

End Suspect.

(** * Vocabulary of the properties *)

(** ** The states the loop goes through *)

(** The number of blocks closed and the commands carried out in the
    current block, after one more line. *)
Definition blocks_done (line : string) (k : nat) : nat :=
  if block_end line then S k else k.

Definition command_of (line : string) : string :=
  match fst (split_command line) with
  | Some c => c
  | None => ""
  end.

Definition block_cmds (line : string) (prev : Z) (st : state)
           (cmds : list string) : list string :=
  if block_end line then []
  else if prev =? blockCount st then cmds ++ [command_of line]
  else [].

(** [reach w args k cmds prev input st]: running [main] on [args] brings
    the loop of [parse_input] to its top with globals [st] and
    [previousBlock = prev], after [k] blocks were closed and the commands
    [cmds] of the current block were carried out. *)
Inductive reach (w : world) (args : list string)
  : nat -> list string -> Z -> source -> state -> Prop :=
| reach_start input st0 :
    get_input_source w args (initial w) = inl (input, st0) ->
    reach w args 0 [] 0 input st0
| reach_step k cmds prev input st line st1 prev' st2 :
    reach w args k cmds prev input st ->
    pending st = None ->
    read_input input st = (Some line, st1) ->
    loop_body w line prev st1 = Next prev' st2 ->
    reach w args (blocks_done line k) (block_cmds line prev st1 cmds)
          prev' input st2.

(** A block is open when its first line was read and its blank line was
    not. *)
Definition block_open (prev : Z) (st : state) : Prop := prev = blockCount st.

(** No handler touches the block and line counters, the script or the
    pending signal, and none puts anything back on standard input. *)
Record kept (st st' : state) : Prop := {
  kept_block : blockCount st' = blockCount st;
  kept_line : lineCount st' = lineCount st;
  kept_script : script st' = script st;
  kept_stdin : (String.length (stdin st') <= String.length (stdin st))%nat;
  kept_pending : pending st' = pending st
}.

(** ** Outcomes *)

Definition exit_status (o : outcome) : option Z :=
  match o with
  | Exit code _ => Some code
  | _ => None
  end.

Definition printed (o : outcome) : string :=
  match o with
  | Exit _ st | Returns st | Hang st | Undefined _ st => stdout st
  | OutOfFuel => ""
  end.

(** The code a handler returned, if it returned. *)
Definition rc_of (r : result) : option Z :=
  match r with
  | Ret rc _ => Some rc
  | _ => None
  end.

(** The terminations [wait] can report: an exit code of eight bits, or
    one of the signals 1 to 127. *)
Definition valid_termination (t : termination) : Prop :=
  match t with
  | Exited code => 0 <= code <= 255
  | Signaled sig _ => 1 <= sig <= 127
  end.

(** ** Text *)

(** A script given line by line, each line with its terminator. *)
Fixpoint text_of (lines : list string) : string :=
  match lines with
  | [] => ""
  | l :: r => l ++ String NL (text_of r)
  end.

(** No character of [s] is one of the delimiters [ds]. *)
Fixpoint no_delim (ds : list ascii) (s : string) : bool :=
  match s with
  | EmptyString => true
  | String c r => (negb (mem_char c ds) && no_delim ds r)%bool
  end.

(** The value of a string of decimal digits read from the left, as
    [scan_digits] accumulates it. *)
Fixpoint uval (u : Decimal.uint) (acc : Z) : Z :=
  match u with
  | Decimal.Nil => acc
  | Decimal.D0 u => uval u (acc * 10 + 0)
  | Decimal.D1 u => uval u (acc * 10 + 1)
  | Decimal.D2 u => uval u (acc * 10 + 2)
  | Decimal.D3 u => uval u (acc * 10 + 3)
  | Decimal.D4 u => uval u (acc * 10 + 4)
  | Decimal.D5 u => uval u (acc * 10 + 5)
  | Decimal.D6 u => uval u (acc * 10 + 6)
  | Decimal.D7 u => uval u (acc * 10 + 7)
  | Decimal.D8 u => uval u (acc * 10 + 8)
  | Decimal.D9 u => uval u (acc * 10 + 9)
  end.

(** ** Well-formed scripts *)

(** A block of a script: the line that names the program and the command
    lines.  Its text ends with the blank line. *)
Record block := { b_program : string; b_commands : list string }.

Definition block_lines (b : block) : list string :=
  b_program b :: (b_commands b ++ [""])%list.

Fixpoint script_lines (bs : list block) : list string :=
  match bs with
  | [] => []
  | b :: r => (block_lines b ++ script_lines r)%list
  end.

(** A line of a block is not blank and holds no NUL. *)
Definition line_ok (l : string) : Prop := plain l = true /\ l <> "".

(** Exactly one of the commands of a well-formed block is [exit]. *)
Definition well_formed (b : block) : Prop :=
  line_ok (b_program b) /\
  Forall line_ok (b_commands b) /\
  count_occ string_dec (map command_of (b_commands b)) "exit" = 1%nat.

Definition no_endinput (b : block) : Prop :=
  ~ In "endinput" (map command_of (b_commands b)).

(** The run stopped at a line that is not blank: the program of a block
    could not be started (possibly noticed one line later, when the
    signal of the failed [execvp] is delivered), or a command did not
    pass. *)
Definition stopped_at_line (w : world) (args : list string) : Prop :=
  exists k cmds prev st,
    reach w args k cmds prev FromFile st /\
    (pending st <> None \/
     exists line st1 o,
       read_input FromFile st = (Some line, st1) /\ line <> "" /\
       loop_body w line prev st1 = Stop o).

(** How the run of a well-formed script ends. *)
Definition good (w : world) (args : list string) : Prop :=
  (exists st, main w args = Exit 0 st) \/ stopped_at_line w args.

(** ** Programs and worlds to run scripts in *)

Definition input_closed (h : list stim) : bool :=
  existsb (fun s => match s with ClosedInput => true | Wrote _ => false end) h.

(** [cat]: copies its input to its output and exits with 0 at the end of
    its input. *)
Definition prog_cat : program :=
  {| p_start := "";
     p_react := fun _ s => match s with Wrote b => b | ClosedInput => "" end;
     p_accept := fun _ _ => WriteOk;
     p_end := fun h => if input_closed h then Some (Exited 0) else None |}.

(** A program that prints [greeting] and exits with [code] at once. *)
Definition prog_say (greeting : string) (code : Z) : program :=
  {| p_start := greeting;
     p_react := fun _ _ => "";
     p_accept := fun _ _ => BrokenPipe;
     p_end := fun _ => Some (Exited code) |}.

(** A program that never reads: every write to it reports an error. *)
Definition prog_deaf : program :=
  {| p_start := "";
     p_react := fun _ _ => "";
     p_accept := fun _ _ => WriteError;
     p_end := fun h => if input_closed h then Some (Exited 0) else None |}.

(** The world in which every block runs [prog], every file holds
    [text], and standard input holds [input]. *)
Definition world_of (prog : program) (text input : string) : world :=
  {| w_exec := fun _ _ => Started 1%positive prog;
     w_fopen := fun _ => Some text;
     w_stdin := input;
     w_access := fun _ => false;
     w_stat := fun _ => None;
     w_deadline := fun _ => false |}.

(** The globals right after [run_new_process] started [prog] for the
    first block. *)
Definition state_with (prog : program) : state :=
  set_child (Some {| pr_prog := prog; pr_hist := [];
                     pr_out := p_start prog; pr_reaped := false |})
    (set_writePipe OpenFile
       (set_readPipe OpenFile
          (set_pid 1 (initial (world_of prog "" ""))))).

(** Standard input holds a line and the word that ends the interactive
    mode; the child is one to which every write fails. *)
Definition state_deaf : state :=
  set_stdin (text_of ["hello"; "END"]) (state_with prog_deaf).

(** A script that runs [cat], sends it a line and ends the block without
    an [exit]. *)
Definition world_no_exit : world :=
  world_of prog_cat (text_of ["cat"; "send hello"; ""]) "".

(** A script whose first line is blank. *)
Definition world_blank_first : world :=
  world_of prog_cat (text_of [""; "cat"; "exit 0"; ""]) "".

(** A script that stops inside its only block, after an [exit] that
    passed. *)
Definition world_eof_inside : world :=
  world_of (prog_say "" 0) ("true" ++ String NL "exit 0") "".

(** [cat] is closed with [endinput], exits with 0 as [exit 0] wants, and
    the block is ended by its blank line. *)
Definition world_endinput : world :=
  world_of prog_cat (text_of ["cat"; "endinput"; "exit 0"; ""]) "".

(** ** Program lines, commands and words *)

Definition starts_with_space (s : string) : bool :=
  match s with
  | String c _ => Ascii.eqb c SP
  | EmptyString => false
  end.

Fixpoint ends_with_space (s : string) : bool :=
  match s with
  | EmptyString => false
  | String c EmptyString => Ascii.eqb c SP
  | String _ r => ends_with_space r
  end.

Definition b2n (b : bool) : nat := if b then 1%nat else 0%nat.

(** The names [handle_command] knows. *)
Definition known_commands : list string :=
  ["exit"; "want"; "send"; "exists"; "size>"; "echo"; "endinput";
   "interactive"; "limit"].

(** A word for [%s]: no white space in it. *)
Fixpoint no_space (s : string) : bool :=
  match s with
  | EmptyString => true
  | String c r => (negb (isspace c) && no_space r)%bool
  end.

(** What may follow a word in a parameter string: nothing, or white
    space. *)
Definition word_end (rest : string) : bool :=
  match rest with
  | EmptyString => true
  | String c _ => isspace c
  end.

(** What the child is sent when the lines [ls] are written to it one by
    one. *)
Definition sent (ls : list string) : list stim :=
  map (fun l => Wrote (l ++ String NL "")) ls.

(** A child that takes every write. *)
Definition always_accepts (prog : program) : Prop :=
  forall h bytes, p_accept prog h bytes = WriteOk.

(** A world in which no file can be opened and no program started. *)
Definition world_without_files : world :=
  {| w_exec := fun _ _ => ExecFail 1%positive;
     w_fopen := fun _ => None;
     w_stdin := "";
     w_access := fun _ => false;
     w_stat := fun _ => None;
     w_deadline := fun _ => false |}.



(** * Properties *)

(** ** Strings *)

Lemma append_nil_r (s : string) : s ++ "" = s.
Proof. induction s as [|c s IH]; simpl; [reflexivity | now rewrite IH]. Qed.

Lemma append_assoc (a b c : string) : (a ++ b) ++ c = a ++ b ++ c.
Proof. induction a as [|x a IH]; simpl; [reflexivity | now rewrite IH]. Qed.

Lemma length_append (a b : string) :
  String.length (a ++ b) = (String.length a + String.length b)%nat.
Proof. induction a as [|x a IH]; simpl; [reflexivity | now rewrite IH]. Qed.

Lemma cstr_no_nul (s : string) : no_char NUL s = true -> cstr s = s.
Proof.
  induction s as [|c s IH]; simpl; [reflexivity |].
  destruct (Ascii.eqb c NUL); simpl; [discriminate |].
  intros H. now rewrite IH.
Qed.

Lemma no_char_append (x : ascii) (a b : string) :
  no_char x (a ++ b) = (no_char x a && no_char x b)%bool.
Proof.
  induction a as [|c a IH]; simpl; [reflexivity |].
  rewrite IH. now rewrite andb_assoc.
Qed.

Lemma plain_cons (c : ascii) (s : string) :
  plain (String c s) = true ->
  Ascii.eqb c NUL = false /\ Ascii.eqb c NL = false /\ plain s = true.
Proof.
  unfold plain. simpl.
  destruct (Ascii.eqb c NUL), (Ascii.eqb c NL); simpl;
    try discriminate; intros H; repeat split; trivial;
    destruct (no_char NUL s); discriminate.
Qed.

(** ** [get_line] returns the text before the line terminator *)

Lemma get_line_loop_line (tl : tail_kind) (t : string) :
  forall rest line buffer,
    plain t = true ->
    no_char NUL buffer = true ->
    (String.length buffer <= BUFF_LEN - 1)%nat ->
    get_line_loop tl (t ++ String NL rest) line buffer (String.length buffer)
    = Line (Some (line ++ buffer ++ t)) rest.
Proof.
  induction t as [|c t IH]; intros rest line buffer Ht Hb Hn.
  - simpl. unfold append_to_line.
    now rewrite (cstr_no_nul _ Hb), append_nil_r.
  - destruct (plain_cons _ _ Ht) as (Hnul & Hnl & Ht').
    cbn [append get_line_loop]. rewrite Hnl.
    destruct (Nat.ltb (String.length buffer) (BUFF_LEN - 1)) eqn:Hlt.
    + apply Nat.ltb_lt in Hlt.
      replace (S (String.length buffer))
        with (String.length (buffer ++ String c "")).
      2:{ rewrite length_append. simpl. lia. }
      rewrite IH; trivial.
      * now rewrite append_assoc.
      * rewrite no_char_append, Hb. simpl. now rewrite Hnul.
      * rewrite length_append. unfold BUFF_LEN in *. simpl. lia.
    + change 1%nat with (String.length (String c "")).
      rewrite IH; trivial.
      * unfold append_to_line. rewrite (cstr_no_nul _ Hb).
        now rewrite append_assoc.
      * simpl. now rewrite Hnul.
      * simpl. unfold BUFF_LEN. lia.
Qed.

Lemma get_line_line (tl : tail_kind) (t rest : string) :
  plain t = true -> get_line tl (t ++ String NL rest) = Line (Some t) rest.
Proof.
  intros Ht. unfold get_line.
  change 0%nat with (String.length "").
  rewrite get_line_loop_line; trivial. simpl. unfold BUFF_LEN. lia.
Qed.

(** At the end of the file the characters read so far are the line. *)
Lemma get_line_loop_eof (t : string) :
  forall line buffer,
    plain t = true ->
    no_char NUL buffer = true ->
    (String.length buffer <= BUFF_LEN - 1)%nat ->
    (String.length buffer + String.length t <> 0)%nat ->
    get_line_loop AtEOF t line buffer (String.length buffer)
    = Line (Some (line ++ buffer ++ t)) "".
Proof.
  induction t as [|c t IH]; intros line buffer Ht Hb Hn Hne.
  - simpl in *. destruct (Nat.eqb (String.length buffer) 0) eqn:E.
    + apply Nat.eqb_eq in E. lia.
    + unfold append_to_line.
      now rewrite (cstr_no_nul _ Hb), append_nil_r.
  - destruct (plain_cons _ _ Ht) as (Hnul & Hnl & Ht').
    cbn [get_line_loop]. rewrite Hnl.
    destruct (Nat.ltb (String.length buffer) (BUFF_LEN - 1)) eqn:Hlt.
    + apply Nat.ltb_lt in Hlt.
      replace (S (String.length buffer))
        with (String.length (buffer ++ String c "")).
      2:{ rewrite length_append. simpl. lia. }
      rewrite IH; trivial.
      * now rewrite append_assoc.
      * rewrite no_char_append, Hb. simpl. now rewrite Hnul.
      * rewrite length_append. unfold BUFF_LEN in *. simpl. lia.
      * rewrite length_append. unfold BUFF_LEN in *. simpl. lia.
    + change 1%nat with (String.length (String c "")).
      rewrite IH; trivial.
      * unfold append_to_line. rewrite (cstr_no_nul _ Hb).
        now rewrite append_assoc.
      * simpl. now rewrite Hnul.
      * simpl. unfold BUFF_LEN. lia.
      * simpl. lia.
Qed.

Lemma get_line_eof (t : string) :
  plain t = true -> t <> "" -> get_line AtEOF t = Line (Some t) "".
Proof.
  intros Ht Hne. unfold get_line.
  change 0%nat with (String.length "").
  rewrite get_line_loop_eof; trivial.
  - simpl. unfold BUFF_LEN. lia.
  - destruct t; [congruence | simpl; lia].
Qed.

(** A file never makes the reader wait, and a line that was read took at
    least one character. *)
Lemma get_line_loop_rest (tl : tail_kind) (input : string) :
  forall line buffer n l rest,
    get_line_loop tl input line buffer n = Line l rest ->
    (String.length rest <= String.length input)%nat.
Proof.
  induction input as [|c input IH]; intros line buffer n l rest H.
  - simpl in H. destruct tl; [|discriminate].
    destruct (Nat.eqb n 0); inversion H; simpl; lia.
  - cbn [get_line_loop] in H.
    destruct (Ascii.eqb c NL).
    + inversion H; subst. simpl. lia.
    + destruct (Nat.ltb n (BUFF_LEN - 1)); apply IH in H; simpl; lia.
Qed.

Lemma get_line_loop_file (input : string) :
  forall line buffer n,
    get_line_loop AtEOF input line buffer n <> WouldBlock.
Proof.
  induction input as [|c input IH]; intros line buffer n.
  - simpl. destruct (Nat.eqb n 0); discriminate.
  - cbn [get_line_loop].
    destruct (Ascii.eqb c NL); [discriminate |].
    destruct (Nat.ltb n (BUFF_LEN - 1)); apply IH.
Qed.

Lemma get_line_file_some (content l rest : string) :
  get_line_file content = (Some l, rest) ->
  (String.length rest < String.length content)%nat.
Proof.
  unfold get_line_file, get_line.
  destruct content as [|c content]; simpl.
  - intros H. inversion H.
  - destruct (Ascii.eqb c NL).
    + intros H. inversion H; subst. lia.
    + destruct (get_line_loop AtEOF content "" (String c "") 1) eqn:E.
      * intros H. inversion H; subst.
        apply get_line_loop_rest in E. lia.
      * intros H. inversion H.
Qed.

Lemma get_line_file_rest (content : string) (l : option string) (rest : string) :
  get_line_file content = (l, rest) ->
  (String.length rest <= String.length content)%nat.
Proof.
  unfold get_line_file, get_line.
  destruct (get_line_loop AtEOF content "" "" 0) eqn:E.
  - intros H. inversion H; subst. now apply get_line_loop_rest in E.
  - intros H. inversion H; subst. lia.
Qed.

Lemma get_line_file_none (content rest : string) :
  get_line_file content = (None, rest) -> content = "" /\ rest = "".
Proof.
  unfold get_line_file, get_line.
  destruct content as [|c content].
  - simpl. intros H. inversion H. auto.
  - cbn [get_line_loop].
    assert (G : forall input line buffer n r, n <> 0%nat ->
              get_line_loop AtEOF input line buffer n <> Line None r).
    { induction input as [|d input IH]; intros line buffer n r Hn.
      - simpl. destruct (Nat.eqb n 0) eqn:E; [|discriminate].
        apply Nat.eqb_eq in E. contradiction.
      - cbn [get_line_loop]. destruct (Ascii.eqb d NL); [discriminate |].
        destruct (Nat.ltb n (BUFF_LEN - 1)); apply IH; lia. }
    destruct (Ascii.eqb c NL); [intros H; inversion H |].
    simpl.
    destruct (get_line_loop AtEOF content "" (String c "") 1) eqn:E.
    + intros H. inversion H; subst. now apply G in E.
    + now apply get_line_loop_file in E.
Qed.

(** ** What the handlers leave alone *)

Lemma kept_refl (st : state) : kept st st.
Proof. split; auto. Qed.

Lemma kept_trans (a b c : state) : kept a b -> kept b c -> kept a c.
Proof.
  intros [] []. split; try congruence. lia.
Qed.

(** Case analysis on whatever a handler inspects. *)
Ltac break_match H :=
  repeat match type of H with
         | context [match ?x with _ => _ end] => destruct x eqn:?
         | context [if ?x then _ else _] => destruct x eqn:?
         end.

Ltac returned H :=
  break_match H; try discriminate H; inversion H; subst; clear H.

Section Frames.

Variable w : world.

Lemma handle_send_kept params st rc st' :
  handle_send params st = Ret rc st' ->
  kept st st' /\ sawExit st' = sawExit st /\ stdin st' = stdin st.
Proof.
  unfold handle_send. intros H. returned H; repeat split; auto.
Qed.

Lemma read_stdin_kept st l st' :
  read_stdin st = (l, st') -> kept st st' /\ sawExit st' = sawExit st.
Proof.
  unfold read_stdin. destruct (get_line_file (stdin st)) as [l0 rest] eqn:E.
  intros H. inversion H; subst.
  apply get_line_file_rest in E. repeat split; auto.
Qed.

Lemma interactive_loop_kept fuel word :
  forall st rc st',
    interactive_loop fuel word st = Ret rc st' ->
    kept st st' /\ sawExit st' = sawExit st /\ rc = 8.
Proof.
  induction fuel as [|f IH]; intros st rc st' H; [discriminate |].
  cbn [interactive_loop] in H.
  destruct (read_stdin st) as [[line|] st1] eqn:R;
    apply read_stdin_kept in R; destruct R as (K1 & E1).
  - destruct (String.eqb line word).
    + inversion H; subst. auto.
    + destruct (handle_send (Some line) st1) as [rc2 st2| | | | |] eqn:S;
        try discriminate.
      apply handle_send_kept in S. destruct S as (K2 & E2 & _).
      apply IH in H. destruct H as (K3 & E3 & ->).
      repeat split; try congruence.
      all: eapply kept_trans; [eassumption |]; eapply kept_trans; eassumption.
  - inversion H; subst. auto.
Qed.

Lemma handle_command_kept command params st rc st' :
  handle_command w command params st = Ret rc st' -> kept st st'.
Proof.
  unfold handle_command. destruct command as [c|]; [|discriminate].
  destruct (String.eqb c "exit").
  { unfold handle_exit, exit_test. intros H. returned H; split; auto. }
  destruct (String.eqb c "want").
  { unfold handle_want. intros H. returned H; split; auto. }
  destruct (String.eqb c "send").
  { intros H. now apply handle_send_kept in H. }
  destruct (String.eqb c "exists").
  { unfold handle_exists. intros H. returned H; split; auto. }
  destruct (String.eqb c "size>").
  { unfold handle_size. intros H. returned H; split; auto. }
  destruct (String.eqb c "echo").
  { unfold handle_echo. intros H. returned H; split; auto. }
  destruct (String.eqb c "endinput").
  { unfold handle_endinput. intros H. returned H; split; auto. }
  destruct (String.eqb c "interactive").
  { unfold handle_interactive. intros H.
    destruct params as [p|]; [|inversion H; subst; apply kept_refl].
    destruct (scan_word p); [|inversion H; subst; apply kept_refl].
    now apply interactive_loop_kept in H. }
  destruct (String.eqb c "limit").
  { unfold handle_limit, alarm. intros H. returned H; split; auto. }
  intros H. inversion H; subst. apply kept_refl.
Qed.

(** Only [exit] changes the flag that records it. *)
Lemma handle_command_sawExit c params st rc st' :
  handle_command w (Some c) params st = Ret rc st' ->
  c <> "exit" -> sawExit st' = sawExit st.
Proof.
  unfold handle_command. intros H Hc.
  destruct (String.eqb c "exit") eqn:E.
  { apply String.eqb_eq in E. contradiction. }
  destruct (String.eqb c "want").
  { unfold handle_want in H. returned H; auto. }
  destruct (String.eqb c "send").
  { now apply handle_send_kept in H. }
  destruct (String.eqb c "exists").
  { unfold handle_exists in H. returned H; auto. }
  destruct (String.eqb c "size>").
  { unfold handle_size in H. returned H; auto. }
  destruct (String.eqb c "echo").
  { unfold handle_echo in H. returned H; auto. }
  destruct (String.eqb c "endinput").
  { unfold handle_endinput in H. returned H; auto. }
  destruct (String.eqb c "interactive").
  { unfold handle_interactive in H.
    destruct params as [p|]; [|inversion H; subst; reflexivity].
    destruct (scan_word p); [|inversion H; subst; reflexivity].
    now apply interactive_loop_kept in H. }
  destruct (String.eqb c "limit").
  { unfold handle_limit, alarm in H. returned H; auto. }
  inversion H; subst. reflexivity.
Qed.

Lemma run_new_process_kept cmd st rc st' :
  run_new_process w cmd st = Ret rc st' ->
  blockCount st' = blockCount st /\ lineCount st' = lineCount st /\
  script st' = script st /\ stdin st' = stdin st /\
  sawExit st' = sawExit st.
Proof.
  unfold run_new_process. intros H. returned H; repeat split; auto.
Qed.

End Frames.

(** ** The loop of [parse_input] *)

Section Loop.

Variable w : world.

Lemma read_input_some input st line st1 :
  read_input input st = (Some line, st1) ->
  (unread st1 < unread st)%nat /\
  blockCount st1 = blockCount st /\ lineCount st1 = lineCount st /\
  sawExit st1 = sawExit st /\ pending st1 = pending st.
Proof.
  unfold read_input, read_stdin, unread. destruct input.
  - destruct (get_line_file (stdin st)) as [l rest] eqn:E.
    intros H. inversion H; subst.
    apply get_line_file_some in E. simpl. repeat split; auto. lia.
  - destruct (get_line_file (script st)) as [l rest] eqn:E.
    intros H. inversion H; subst.
    apply get_line_file_some in E. simpl. repeat split; auto. lia.
Qed.

Lemma loop_body_unread line prev st prev' st' :
  loop_body w line prev st = Next prev' st' -> (unread st' <= unread st)%nat.
Proof.
  unfold loop_body, unread.
  destruct (negb (block_end line)).
  - destruct (negb (prev =? blockCount st)).
    + destruct (run_new_process w line st) as [rc s1| | | | |] eqn:R;
        simpl; try discriminate.
      apply run_new_process_kept in R. destruct R as (_ & _ & Hs & Hi & _).
      destruct (negb (rc =? 0)); [discriminate |].
      intros H. inversion H; subst. simpl. rewrite Hs, Hi. lia.
    + destruct ((0 <? timer st) && w_deadline w (lineCount st))%bool;
        [discriminate |].
      destruct (split_command line) as [command params].
      destruct (handle_command w command params st) as [rc s1| | | | |] eqn:R;
        simpl; try discriminate.
      apply handle_command_kept in R. destruct R as [_ _ Hs Hi _].
      destruct (rc =? -1); [discriminate |].
      intros H. inversion H; subst. simpl. rewrite Hs. lia.
  - unfold end_block. intros H. returned H. simpl. lia.
Qed.

(** Fuel beyond the number of unread characters changes nothing. *)
Lemma parse_loop_fuel input :
  forall f1 f2 prev st,
    (unread st < f1)%nat -> (unread st < f2)%nat ->
    parse_loop w f1 input prev st = parse_loop w f2 input prev st.
Proof.
  induction f1 as [|f1 IH]; intros f2 prev st H1 H2; [lia |].
  destruct f2 as [|f2]; [lia |].
  cbn [parse_loop].
  destruct (pending st); [reflexivity |].
  destruct (read_input input st) as [[line|] st1] eqn:R; [|reflexivity].
  apply read_input_some in R. destruct R as (Hlt & _).
  destruct (loop_body w line prev st1) as [prev' st2|o] eqn:B; [|reflexivity].
  apply loop_body_unread in B. apply IH; lia.
Qed.

(** The loop, one turn at a time. *)
Lemma run_from_signal input prev st s :
  pending st = Some s ->
  run_from w input prev st = handle_sigs s (set_pending None st).
Proof. unfold run_from. cbn [parse_loop]. now intros ->. Qed.

Lemma run_from_eof input prev st st1 :
  pending st = None -> read_input input st = (None, st1) ->
  run_from w input prev st = Returns st1.
Proof. unfold run_from. cbn [parse_loop]. now intros -> ->. Qed.

Lemma run_from_stop input prev st line st1 o :
  pending st = None -> read_input input st = (Some line, st1) ->
  loop_body w line prev st1 = Stop o ->
  run_from w input prev st = o.
Proof. unfold run_from. cbn [parse_loop]. now intros -> -> ->. Qed.

Lemma run_from_next input prev st line st1 prev' st2 :
  pending st = None -> read_input input st = (Some line, st1) ->
  loop_body w line prev st1 = Next prev' st2 ->
  run_from w input prev st = run_from w input prev' st2.
Proof.
  unfold run_from. intros P R B.
  transitivity (parse_loop w (unread st) input prev' st2).
  - cbn [parse_loop]. now rewrite P, R, B.
  - apply read_input_some in R. destruct R as (Hlt & _).
    apply loop_body_unread in B.
    apply parse_loop_fuel; lia.
Qed.

Lemma reach_main args k cmds prev input st :
  reach w args k cmds prev input st ->
  main w args = finish (run_from w input prev st).
Proof.
  induction 1 as [input st0 H0 | k cmds prev input st line st1 prev' st2 R IH P L B].
  - unfold main, parse_input. now rewrite H0.
  - rewrite IH. f_equal. now apply run_from_next with (line := line) (st1 := st1).
Qed.

Lemma get_input_source_initial args input st0 :
  get_input_source w args (initial w) = inl (input, st0) ->
  blockCount st0 = 1 /\ sawExit st0 = false /\ pending st0 = None.
Proof.
  unfold get_input_source. intros H. returned H; auto.
Qed.

(** The block counter counts the closed blocks; the [exit] flag is up only
    inside a block in which [exit] was carried out; a signal is pending
    only inside a block. *)
Lemma reach_inv args k cmds prev input st :
  reach w args k cmds prev input st ->
  blockCount st = Z.of_nat k + 1 /\
  (sawExit st = true -> block_open prev st /\ In "exit" cmds) /\
  (pending st <> None -> block_open prev st) /\
  (~ block_open prev st -> prev = blockCount st - 1).
Proof.
  unfold block_open.
  induction 1 as [input st0 H0 | k cmds prev input st line st1 prev' st2 R IH P L B].
  - apply get_input_source_initial in H0. destruct H0 as (Hb & He & Hp).
    rewrite Hb, He, Hp. repeat split; try discriminate; try congruence; lia.
  - destruct IH as (Ik & Ie & Ip & Ii).
    apply read_input_some in L. destruct L as (_ & Lb & _ & Le & Lp).
    unfold loop_body in B. unfold blocks_done, block_cmds.
    destruct (block_end line) eqn:EB; cbn [negb] in B.
    + unfold end_block in B. returned B. simpl.
      repeat split; try discriminate; try congruence; try lia.
    + destruct (prev =? blockCount st1) eqn:EP; cbn [negb] in B.
      * apply Z.eqb_eq in EP.
        destruct ((0 <? timer st1) && w_deadline w (lineCount st1))%bool;
          [discriminate |].
        unfold command_of.
        destruct (split_command line) as [command params]. simpl fst.
        destruct (handle_command w command params st1) as [rc s1| | | | |] eqn:H;
          simpl in B; try discriminate.
        destruct (rc =? -1); [discriminate |].
        inversion B; subst prev' st2. simpl.
        pose proof (handle_command_kept _ _ _ _ _ _ H) as [Kb _ _ _ Kp].
        repeat split; try congruence; try lia.
        destruct command as [c|]; [|discriminate H].
        destruct (String.eqb c "exit") eqn:EC.
        -- apply String.eqb_eq in EC. subst c.
           apply in_or_app. right. now left.
        -- assert (c <> "exit") as Hc
             by (intros ->; now rewrite String.eqb_refl in EC).
           rewrite (handle_command_sawExit _ _ _ _ _ _ H Hc), Le in H0.
           apply in_or_app. left. now apply Ie.
      * destruct (run_new_process w line st1) as [rc s1| | | | |] eqn:H;
          simpl in B; try discriminate.
        destruct (negb (rc =? 0)); [discriminate |].
        inversion B; subst prev' st2. simpl.
        apply run_new_process_kept in H. destruct H as (Hb & _ & _ & _ & He).
        apply Z.eqb_neq in EP.
        repeat split; try congruence; try lia.
        rewrite He, Le in H. apply Ie in H. destruct H. congruence.
Qed.

End Loop.

(** ** Reading a line changes nothing but the stream *)

Lemma read_input_fields input st l st1 :
  read_input input st = (l, st1) ->
  stdout st1 = stdout st /\ pid st1 = pid st /\ timer st1 = timer st /\
  readPipe st1 = readPipe st /\ writePipe st1 = writePipe st /\
  sawExit st1 = sawExit st /\ sawLimit st1 = sawLimit st /\
  blockCount st1 = blockCount st /\ lineCount st1 = lineCount st /\
  child st1 = child st /\ killed st1 = killed st /\ echo st1 = echo st.
Proof.
  unfold read_input, read_stdin. destruct input.
  - destruct (get_line_file (stdin st)). intros H. inversion H; subst.
    simpl. repeat split.
  - destruct (get_line_file (script st)). intros H. inversion H; subst.
    simpl. repeat split.
Qed.

Lemma throw_error_stdout code i s st :
  exists st', throw_error code i s st = Exit code st' /\
              stdout st' = stdout st ++ diagnostic code i s.
Proof.
  unfold throw_error. eexists. split; [reflexivity |].
  destruct (negb (pid (print (diagnostic code i s) st) =? -1)); reflexivity.
Qed.

(** ** Blank lines *)

Section Blank.

Variable w : world.

(** A blank line with the [exit] flag down ends the run with the
    block-incomplete error, whatever else the state holds. *)
Lemma blank_without_exit args k cmds prev input st st1 :
  reach w args k cmds prev input st ->
  pending st = None ->
  sawExit st = false ->
  read_input input st = (Some "", st1) ->
  exists st',
    main w args = Exit ERR_BLOCK st' /\
    stdout st' = stdout st ++ "Block " ++ dec (Z.of_nat k + 1)
                   ++ " ended without an exit." ++ String NL "".
Proof.
  intros R P E L.
  pose proof (reach_inv _ _ _ _ _ _ _ R) as (Hk & _).
  pose proof (read_input_fields _ _ _ _ L) as
    (Ho & _ & _ & _ & _ & He & _ & Hb & _).
  destruct (throw_error_stdout ERR_BLOCK (blockCount st1) None st1)
    as (st' & T & O).
  exists st'. split.
  - rewrite (reach_main _ _ _ _ _ _ _ R).
    rewrite (run_from_stop w input prev st "" st1 (Exit ERR_BLOCK st'));
      trivial.
    unfold loop_body, end_block. simpl. rewrite He, E. simpl. now rewrite T.
  - rewrite O, Ho, Hb, Hk. reflexivity.
Qed.

End Blank.

(** C3.  A block is open, none of the commands carried out in it is
    [exit], and its terminating blank line is read: the run prints
    "Block N ended without an exit.", where N is the ordinal of that block
    (one more than the number of blocks closed before it), and exits with
    status 2.  Nothing is assumed of the other commands of the block. *)
Theorem block_without_exit_incomplete
        (w : world) (args : list string) (k : nat) (cmds : list string)
        (prev : Z) (input : source) (st st1 : state) :
  reach w args k cmds prev input st ->
  block_open prev st ->
  ~ In "exit" cmds ->
  pending st = None ->
  read_input input st = (Some "", st1) ->
  exists st',
    main w args = Exit 2 st' /\
    stdout st' = stdout st ++ "Block " ++ dec (Z.of_nat k + 1)
                   ++ " ended without an exit." ++ String NL "".
Proof.
  intros R _ Hc P L.
  apply (blank_without_exit w args k cmds prev input st st1); trivial.
  pose proof (reach_inv _ _ _ _ _ _ _ R) as (_ & He & _).
  destruct (sawExit st); [|reflexivity].
  destruct (He eq_refl) as (_ & Hin). contradiction.
Qed.

(** C10.  No block is open and a blank line is read: the run prints
    "Block N ended without an exit.", where N is the number of the block
    that would come next, and exits with status 2.  The blank line is not
    skipped. *)
Theorem blank_line_outside_block
        (w : world) (args : list string) (k : nat) (cmds : list string)
        (prev : Z) (input : source) (st st1 : state) :
  reach w args k cmds prev input st ->
  ~ block_open prev st ->
  read_input input st = (Some "", st1) ->
  exists st',
    main w args = Exit 2 st' /\
    stdout st' = stdout st ++ "Block " ++ dec (Z.of_nat k + 1)
                   ++ " ended without an exit." ++ String NL "".
Proof.
  intros R Hi L.
  pose proof (reach_inv _ _ _ _ _ _ _ R) as (_ & He & Hp & _).
  apply (blank_without_exit w args k cmds prev input st st1); trivial.
  - destruct (pending st); [|reflexivity].
    exfalso. apply Hi, Hp. discriminate.
  - destruct (sawExit st); [|reflexivity].
    destruct (He eq_refl) as (Ho & _). contradiction.
Qed.

(** The two places where no block is open: before the first line, and
    right after the blank line that closed a block. *)
Lemma no_block_at_start (w : world) args input st0 :
  get_input_source w args (initial w) = inl (input, st0) ->
  reach w args 0 [] 0 input st0 /\ ~ block_open 0 st0.
Proof.
  intros H. split; [now constructor |].
  apply get_input_source_initial in H. destruct H as (Hb & _).
  unfold block_open. lia.
Qed.

Lemma no_block_after_blank (w : world) args k cmds prev input st st1 prev' st2 :
  reach w args k cmds prev input st ->
  pending st = None ->
  read_input input st = (Some "", st1) ->
  loop_body w "" prev st1 = Next prev' st2 ->
  reach w args (S k) [] prev' input st2 /\ ~ block_open prev' st2.
Proof.
  intros R P L B. split.
  - exact (reach_step w args k cmds prev input st "" st1 prev' st2 R P L B).
  - unfold loop_body, end_block in B. simpl in B. returned B.
    unfold block_open. simpl. lia.
Qed.

Lemma block_without_exit_incomplete_witness :
  exists st',
    main world_no_exit ["script"] = Exit 2 st' /\
    stdout st' = "Block 1 ended without an exit." ++ String NL "".
Proof.
  edestruct (block_without_exit_incomplete world_no_exit ["script"])
    as (st' & Hm & Ho).
  - eapply reach_step.
    + eapply reach_step.
      * apply reach_start. reflexivity.
      * reflexivity.
      * vm_compute; reflexivity.
      * vm_compute; reflexivity.
    + reflexivity.
    + vm_compute; reflexivity.
    + vm_compute; reflexivity.
  - reflexivity.
  - simpl. intros [H | []]. discriminate H.
  - reflexivity.
  - vm_compute; reflexivity.
  - exists st'. split; [exact Hm | rewrite Ho; reflexivity].
Defined.

Lemma blank_line_outside_block_witness :
  exists st',
    main world_blank_first ["script"] = Exit 2 st' /\
    stdout st' = "Block 1 ended without an exit." ++ String NL "".
Proof.
  edestruct (blank_line_outside_block world_blank_first ["script"])
    as (st' & Hm & Ho).
  - apply reach_start. reflexivity.
  - unfold block_open. simpl. lia.
  - vm_compute; reflexivity.
  - exists st'. split; [exact Hm | rewrite Ho; reflexivity].
Defined.

(** A blank line right after the blank line that closed the first block
    is reported for block 2. *)
Example blank_after_block :
  let w := world_of (prog_say "" 0) (text_of ["true"; "exit 0"; ""; ""]) "" in
  exit_status (main w ["script"]) = Some 2 /\
  printed (main w ["script"]) = "Block 2 ended without an exit." ++ String NL "".
Proof. split; vm_compute; reflexivity. Qed.

(** ** End of the script *)

(** C4, as the code has it.  When the script is exhausted while a block is
    open (and no signal of a failed [execvp] is pending), [parse_input]
    returns and the run ends with status 0 without printing anything
    more; the [exit] flag of the open block is not looked at. *)
Theorem eof_inside_block_succeeds
        (w : world) (args : list string) (k : nat) (cmds : list string)
        (prev : Z) (input : source) (st st1 : state) :
  reach w args k cmds prev input st ->
  block_open prev st ->
  pending st = None ->
  read_input input st = (None, st1) ->
  main w args = Exit 0 st1 /\ stdout st1 = stdout st.
Proof.
  intros R _ P L. split.
  - rewrite (reach_main _ _ _ _ _ _ _ R).
    now rewrite (run_from_eof w input prev st st1 P L).
  - now apply read_input_fields in L.
Qed.

Lemma eof_inside_block_succeeds_witness :
  exists st1,
    main world_eof_inside ["script"] = Exit 0 st1 /\ stdout st1 = "".
Proof.
  edestruct (eof_inside_block_succeeds world_eof_inside ["script"])
    as (Hm & Ho).
  - eapply reach_step.
    + eapply reach_step.
      * apply reach_start. reflexivity.
      * reflexivity.
      * vm_compute; reflexivity.
      * vm_compute; reflexivity.
    + reflexivity.
    + vm_compute; reflexivity.
    + vm_compute; reflexivity.
  - reflexivity.
  - reflexivity.
  - vm_compute; reflexivity.
  - eexists. split; [exact Hm | exact Ho].
Defined.

(** C4 as stated fails: the script of [world_eof_inside] is exhausted
    while its block is open, and the run ends with status 0. *)
Lemma eof_inside_block_counterexample :
  exists k cmds prev input st st1,
    reach world_eof_inside ["script"] k cmds prev input st /\
    block_open prev st /\
    read_input input st = (None, st1) /\
    exit_status (main world_eof_inside ["script"]) = Some 0 /\
    printed (main world_eof_inside ["script"]) = "".
Proof.
  do 6 eexists. split; [|split; [|split; [|split]]].
  - eapply reach_step.
    + eapply reach_step.
      * apply reach_start. reflexivity.
      * reflexivity.
      * vm_compute; reflexivity.
      * vm_compute; reflexivity.
    + reflexivity.
    + vm_compute; reflexivity.
    + vm_compute; reflexivity.
  - reflexivity.
  - vm_compute; reflexivity.
  - vm_compute; reflexivity.
  - vm_compute; reflexivity.
Qed.

(** ** Numbers in parameters *)

Lemma scan_digits_stop (rest : string) (acc : Z) :
  starts_digit rest = false -> scan_digits rest acc = (acc, rest).
Proof.
  destruct rest as [|c r]; simpl; [reflexivity |]. now intros ->.
Qed.

Lemma scan_digits_uint (u : Decimal.uint) (rest : string) :
  starts_digit rest = false ->
  forall acc,
    scan_digits (NilEmpty.string_of_uint u ++ rest) acc = (uval u acc, rest).
Proof.
  intros Hr. induction u; intros acc; simpl;
    try (rewrite IHu; reflexivity).
  now apply scan_digits_stop.
Qed.

Lemma uval_of_lu (u : Decimal.uint) :
  forall d,
    Z.of_N (DecimalPos.Unsigned.of_lu (Decimal.revapp u d))
    = uval u (Z.of_N (DecimalPos.Unsigned.of_lu d)).
Proof.
  induction u; intros d; simpl; trivial; rewrite IHu; f_equal;
    cbn [DecimalPos.Unsigned.of_lu]; lia.
Qed.

Lemma uval_to_uint (p : positive) : uval (Pos.to_uint p) 0 = Z.pos p.
Proof.
  pose proof (uval_of_lu (Pos.to_uint p) Decimal.Nil) as H.
  simpl in H. rewrite <- H.
  change (Decimal.revapp (Pos.to_uint p) Decimal.Nil)
    with (Decimal.rev (Pos.to_uint p)).
  rewrite <- DecimalPos.Unsigned.of_uint_alt, DecimalPos.Unsigned.of_to.
  reflexivity.
Qed.

Lemma string_of_uint_digit (u : Decimal.uint) :
  u <> Decimal.Nil ->
  exists c r, NilEmpty.string_of_uint u = String c r /\ isdigit c = true.
Proof.
  destruct u; intros H; [contradiction | ..]; simpl; eauto.
Qed.

Lemma dec_pos (p : positive) :
  dec (Z.pos p) = NilEmpty.string_of_uint (Pos.to_uint p).
Proof.
  unfold dec. simpl. unfold NilZero.string_of_uint.
  pose proof (DecimalPos.Unsigned.to_uint_nonnil p).
  destruct (Pos.to_uint p); trivial. contradiction.
Qed.

Lemma dec_neg (p : positive) :
  dec (Z.neg p) = String "-" (NilEmpty.string_of_uint (Pos.to_uint p)).
Proof.
  unfold dec. simpl. unfold NilZero.string_of_uint.
  pose proof (DecimalPos.Unsigned.to_uint_nonnil p).
  destruct (Pos.to_uint p); trivial. contradiction.
Qed.

Lemma isdigit_not_space (c : ascii) : isdigit c = true -> isspace c = false.
Proof.
  unfold isdigit, isspace. intros H.
  apply andb_true_iff in H. destruct H as (H1 & H2).
  apply Nat.leb_le in H1.
  destruct (Nat.eqb_spec (nat_of_ascii c) 32); [lia |].
  destruct (Nat.leb_spec (nat_of_ascii c) 13); [lia |].
  now rewrite andb_false_r.
Qed.

Lemma isdigit_not_sign (c : ascii) :
  isdigit c = true ->
  Ascii.eqb c "-" = false /\ Ascii.eqb c "+" = false.
Proof.
  intros H. split; apply Ascii.eqb_neq; intros ->; discriminate H.
Qed.

(** [%d] reads back what ["%d"] prints, up to the first character that is
    not a digit. *)
Lemma scan_d_dec (n : Z) (rest : string) :
  starts_digit rest = false -> scan_d (dec n ++ rest) = Some (n, rest).
Proof.
  intros Hr. destruct n as [|p|p].
  - change (dec 0) with "0". unfold scan_d. simpl.
    now rewrite scan_digits_stop.
  - rewrite dec_pos.
    destruct (string_of_uint_digit (Pos.to_uint p)
                (DecimalPos.Unsigned.to_uint_nonnil p)) as (c & r & E & D).
    unfold scan_d. rewrite E. cbn [append skip_space].
    rewrite (isdigit_not_space _ D).
    destruct (isdigit_not_sign _ D) as (-> & ->). rewrite D.
    change (String c (r ++ rest)) with (String c r ++ rest).
    rewrite <- E, scan_digits_uint by trivial.
    now rewrite uval_to_uint.
  - rewrite dec_neg.
    destruct (string_of_uint_digit (Pos.to_uint p)
                (DecimalPos.Unsigned.to_uint_nonnil p)) as (c & r & E & D).
    unfold scan_d. rewrite E.
    change (skip_space (String "-" (String c r) ++ rest))
      with (String "-" (String c r ++ rest)).
    change (Ascii.eqb "-" "-") with true. cbn iota.
    cbn [append starts_digit]. rewrite D.
    change (String c (r ++ rest)) with (String c r ++ rest).
    rewrite <- E, scan_digits_uint by trivial.
    now rewrite uval_to_uint.
Qed.

(** ** The status of a child *)

Lemma land_low (a m : Z) : 0 <= m -> 0 <= a < 2 ^ m -> Z.land a (Z.ones m) = a.
Proof.
  intros Hm Ha. rewrite Z.land_ones by trivial. now apply Z.mod_small.
Qed.

Lemma wait_status_exited (code : Z) :
  0 <= code <= 255 ->
  WIFEXITED (wait_status (Exited code)) = true /\
  Z.shiftr (wait_status (Exited code)) 8 = code.
Proof.
  intros H. unfold WIFEXITED, wait_status.
  change 255 with (Z.ones 8). rewrite land_low by (simpl; lia).
  split.
  - apply Z.eqb_eq. apply Z.bits_inj'. intros i Hi.
    rewrite Z.land_spec, Z.bits_0.
    destruct (Z.ltb_spec i 8).
    + now rewrite Z.shiftl_spec_low.
    + change 127 with (Z.ones 7).
      rewrite Z.ones_spec_high by lia. apply andb_false_r.
  - rewrite Z.shiftr_shiftl_l by lia. apply Z.shiftl_0_r.
Qed.

Lemma wait_status_signaled (sig : Z) (core : bool) :
  1 <= sig <= 127 -> WIFEXITED (wait_status (Signaled sig core)) = false.
Proof.
  intros H. unfold WIFEXITED, wait_status.
  apply Z.eqb_neq. rewrite Z.land_lor_distr_l.
  replace (Z.land (if core then 128 else 0) 127) with 0
    by (destruct core; reflexivity).
  change 127 with (Z.ones 7).
  rewrite (land_low sig 7) by (simpl; lia).
  rewrite (land_low sig 7) by (simpl; lia).
  rewrite Z.lor_0_r. lia.
Qed.

Lemma scan_d_c_dec_end (n : Z) : scan_d_c (dec n) = Some (n, NUL).
Proof.
  unfold scan_d_c. rewrite <- (append_nil_r (dec n)).
  now rewrite scan_d_dec.
Qed.

Lemma scan_d_c_dec_char (n : Z) (x : ascii) (r : string) :
  isdigit x = false -> scan_d_c (dec n ++ String x r) = Some (n, x).
Proof.
  intros H. unfold scan_d_c. now rewrite scan_d_dec.
Qed.

Lemma scan_d_c_none (p : string) : scan_d p = None -> scan_d_c p = None.
Proof. unfold scan_d_c. now intros ->. Qed.

(** ** [exit] *)

Lemma in_int_nonneg (n : Z) : 0 <= n <= INT_MAX -> in_int n = true.
Proof.
  unfold in_int, INT_MIN, INT_MAX. intros H.
  apply andb_true_iff. split; apply Z.leb_le; lia.
Qed.

(** With a well-formed parameter and no [exit] seen so far, [handle_exit]
    raises the flag, waits for the child and tests its status. *)
Lemma handle_exit_waits st c t p n d :
  sawExit st = false ->
  scan_d_c p = Some (n, d) -> is_delimiter d = true -> 0 <= n <= INT_MAX ->
  child st = Some c -> pr_reaped c = false -> ended c = Some t ->
  handle_exit (Some p) st
  = exit_test n (set_childStatus (wait_status t)
                   (set_child (Some (reaped c)) (set_sawExit true st))).
Proof.
  intros Hs Hp Hd Hn Hc Hr He. unfold handle_exit.
  rewrite Hs, Hp. cbv beta iota.
  rewrite (in_int_nonneg n Hn), Hd. cbn [negb orb].
  replace (n <? 0) with false by (symmetry; apply Z.ltb_ge; lia).
  simpl child. now rewrite Hc, Hr, He.
Qed.

Lemma exit_test_decides t n st :
  valid_termination t -> childStatus st = wait_status t ->
  (exit_test n st = Ret 1 st /\ t = Exited n) \/
  (exit_test n st = Ret (-1) st /\ t <> Exited n).
Proof.
  intros Hv Hs. unfold exit_test. rewrite Hs.
  destruct t as [code | sig core]; simpl in Hv.
  - destruct (wait_status_exited code Hv) as (-> & ->). cbn [andb].
    destruct (Z.eqb_spec code n); [left | right]; split; congruence.
  - rewrite (wait_status_signaled sig core Hv). right. split; [reflexivity | discriminate].
Qed.

Lemma exit_param_scans (n : Z) (rest : string) :
  rest = "" \/ (exists r, rest = String SP r) ->
  exists d, scan_d_c (dec n ++ rest) = Some (n, d) /\ is_delimiter d = true.
Proof.
  intros [-> | (r & ->)].
  - exists NUL. rewrite append_nil_r. split; [apply scan_d_c_dec_end | reflexivity].
  - exists SP. split; [now apply scan_d_c_dec_char | reflexivity].
Qed.

(** C2.  In a block whose child ends with [t]:
    - [exit] fails when an [exit] was already seen in the block;
    - it fails when the parameter is missing, when it does not start with
      a number, when the number is followed by anything but a space, and
      when the number is negative;
    - otherwise, for the parameter [n] (alone or followed by a space and
      more text), it passes if and only if the child exited normally with
      code [n], and fails if and only if it did not (it ended on a signal,
      or with another code). *)
Theorem exit_passes_iff_exit_code
        (st : state) (c : proc) (t : termination) :
  child st = Some c ->
  pr_reaped c = false ->
  ended c = Some t ->
  valid_termination t ->
  (sawExit st = true -> forall params, handle_exit params st = Ret (-1) st) /\
  handle_exit None st = Ret (-1) st /\
  (forall p, scan_d p = None -> handle_exit (Some p) st = Ret (-1) st) /\
  (forall n x r,
      in_int n = true -> isdigit x = false -> is_delimiter x = false ->
      handle_exit (Some (dec n ++ String x r)) st = Ret (-1) st) /\
  (forall n rest,
      in_int n = true -> n < 0 -> starts_digit rest = false ->
      handle_exit (Some (dec n ++ rest)) st = Ret (-1) st) /\
  (sawExit st = false ->
   forall n rest,
     0 <= n <= INT_MAX ->
     rest = "" \/ (exists r, rest = String SP r) ->
     let r := handle_exit (Some (dec n ++ rest)) st in
     (rc_of r = Some 1 <-> t = Exited n) /\
     (rc_of r = Some (-1) <-> t <> Exited n) /\
     (exists rc st', r = Ret rc st' /\ sawExit st' = true)).
Proof.
  intros Hc Hr He Hv.
  split; [|split; [|split; [|split; [|split]]]].
  - intros Hs params. unfold handle_exit. now rewrite Hs.
  - unfold handle_exit. now destruct (sawExit st).
  - intros p Hp. unfold handle_exit.
    rewrite (scan_d_c_none _ Hp). now destruct (sawExit st).
  - intros n x r Hn Hx Hd. unfold handle_exit.
    rewrite (scan_d_c_dec_char _ _ _ Hx). cbv beta iota.
    rewrite Hn, Hd. cbn [negb]. rewrite orb_true_r.
    now destruct (sawExit st).
  - intros n rest Hn Hneg Hrest. unfold handle_exit, scan_d_c.
    rewrite (scan_d_dec _ _ Hrest).
    apply Z.ltb_lt in Hneg.
    destruct (sawExit st); [reflexivity |].
    destruct rest; cbv beta iota; rewrite Hn, Hneg; reflexivity.
  - intros Hs n rest Hn Hrest r. subst r.
    destruct (exit_param_scans n rest Hrest) as (d & Hp & Hd).
    rewrite (handle_exit_waits st c t _ n d Hs Hp Hd Hn Hc Hr He).
    set (st' := set_childStatus _ _).
    destruct (exit_test_decides t n st' Hv eq_refl) as [(-> & E) | (-> & E)];
      simpl; repeat split; try congruence; try discriminate; eauto.
Qed.

(** What [exit] makes of a few parameters, with a child that exits
    with 7. *)
Example exit_parameters :
  map (fun p => rc_of (handle_exit (Some p) (state_with (prog_say "" 7))))
      ["7"; " 7"; "+7"; "7 and more"; "07";
       "8"; "seven"; ""; " "; "-7"; "-"; "7x"; "7.0"]
  = [Some 1; Some 1; Some 1; Some 1; Some 1;
     Some (-1); Some (-1); Some (-1); Some (-1); Some (-1); Some (-1);
     Some (-1); Some (-1)].
Proof. vm_compute. reflexivity. Qed.

Lemma exit_passes_iff_exit_code_witness :
  rc_of (handle_exit (Some "3") (state_with (prog_say "" 3))) = Some 1 /\
  rc_of (handle_exit (Some "4") (state_with (prog_say "" 3))) = Some (-1).
Proof.
  destruct (exit_passes_iff_exit_code
              (state_with (prog_say "" 3)) _ (Exited 3)
              eq_refl eq_refl eq_refl) as (_ & _ & _ & _ & _ & H).
  { simpl. lia. }
  split.
  - apply (H eq_refl 3 ""); [unfold INT_MAX; lia | now left | reflexivity].
  - apply (H eq_refl 4 ""); [unfold INT_MAX; lia | now left | discriminate].
Defined.

(** ** [limit] *)

(** What [handle_limit] does refuse: a second [limit] in the block, a
    missing parameter, a parameter that does not start with a number, and
    a number followed by anything but a space. *)
Lemma limit_refuses (st : state) :
  (sawLimit st = true -> forall params, handle_limit params st = Ret (-1) st) /\
  handle_limit None st = Ret (-1) st /\
  (forall p, scan_d p = None -> handle_limit (Some p) st = Ret (-1) st) /\
  (forall n x r,
      in_int n = true -> isdigit x = false -> is_delimiter x = false ->
      handle_limit (Some (dec n ++ String x r)) st = Ret (-1) st).
Proof.
  split; [|split; [|split]].
  - intros Hs params. unfold handle_limit. now rewrite Hs.
  - unfold handle_limit. now destruct (sawLimit st).
  - intros p Hp. unfold handle_limit.
    rewrite (scan_d_c_none _ Hp). now destruct (sawLimit st).
  - intros n x r Hn Hx Hd. unfold handle_limit.
    rewrite (scan_d_c_dec_char _ _ _ Hx). cbv beta iota.
    rewrite Hn, Hd. cbn [negb]. now destruct (sawLimit st).
Qed.

(** C6 fails on negative numbers.  The first [limit n] of a block with a
    negative [n] passes (it returns 9), raises the flag and arms the
    alarm with [n] read as an [unsigned int], that is [n + 2^32]
    seconds.  [handle_exit] tests [n < 0]; [handle_limit] does not. *)
Theorem limit_accepts_negative (st : state) (n : Z) :
  sawLimit st = false ->
  INT_MIN <= n < 0 ->
  handle_limit (Some (dec n)) st
  = Ret 9 (set_sawLimit true (set_timer (n + 2 ^ 32) st)).
Proof.
  intros Hs Hn. unfold handle_limit.
  rewrite Hs, scan_d_c_dec_end. cbv beta iota.
  assert (Hi : in_int n = true).
  { unfold in_int, INT_MAX. unfold INT_MIN in *.
    apply andb_true_iff. split; apply Z.leb_le; lia. }
  rewrite Hi. cbn [negb].
  change (is_delimiter NUL) with true. cbn [negb].
  unfold alarm. do 3 f_equal.
  unfold INT_MIN in Hn.
  rewrite <- (Z.mod_add n 1 (2 ^ 32)) by lia.
  apply Z.mod_small. lia.
Qed.

(** What [limit] makes of a few parameters: the code returned and the
    seconds the alarm is armed with. *)
Example limit_parameters :
  map (fun p =>
         match handle_limit (Some p) (state_with prog_cat) with
         | Ret rc st => Some (rc, timer st)
         | _ => None
         end)
      ["10"; "0"; "-1"; "ten"; "10s"]
  = [Some (9, 10); Some (9, 0); Some (9, 4294967295);
     Some (-1, 0); Some (-1, 0)].
Proof. vm_compute. reflexivity. Qed.

Lemma limit_accepts_negative_witness :
  handle_limit (Some "-5") (state_with prog_cat)
  = Ret 9 (set_sawLimit true (set_timer 4294967291 (state_with prog_cat))).
Proof.
  apply (limit_accepts_negative (state_with prog_cat) (-5)).
  - reflexivity.
  - unfold INT_MIN. lia.
Defined.

(** ** [interactive] *)

(** [handle_interactive] never returns -1 once it has its word: what the
    forwarded [handle_send]s return is not looked at. *)
Lemma interactive_returns_8 (st : state) (p word : string) (rc : Z) (st' : state) :
  scan_word p = Some word ->
  handle_interactive (Some p) st = Ret rc st' -> rc = 8.
Proof.
  unfold handle_interactive. intros ->. intros H.
  now apply interactive_loop_kept in H.
Qed.

(** C9 fails.  The send that forwards "hello" fails (it returns -1) and
    [interactive END] still passes (it returns 8). *)
Theorem interactive_drops_send_failure :
  rc_of (handle_send (Some "hello") state_deaf) = Some (-1) /\
  handle_interactive (Some "END") state_deaf
  = Ret 8 (set_stdin "" state_deaf).
Proof. split; vm_compute; reflexivity. Qed.

(** The run goes on after it: this script ends with status 0 and prints
    nothing. *)
Example interactive_failed_send_run :
  let w := world_of prog_deaf (text_of ["deaf"; "interactive END"])
                    (text_of ["hello"; "END"]) in
  exit_status (main w ["script"]) = Some 0 /\ printed (main w ["script"]) = "".
Proof. split; vm_compute; reflexivity. Qed.

(** ** Splitting a command line *)

Lemma no_char_no_delim (x : ascii) (s : string) :
  no_char x s = true -> no_delim [x] s = true.
Proof.
  induction s as [|c s IH]; simpl; [reflexivity |].
  rewrite orb_false_r. intros H.
  apply andb_true_iff in H. destruct H as (-> & H). now rewrite IH.
Qed.

Lemma take_token_all (ds : list ascii) (s : string) :
  no_delim ds s = true -> take_token ds s = (s, "").
Proof.
  induction s as [|c s IH]; simpl; [reflexivity |].
  intros H. apply andb_true_iff in H. destruct H as (Hc & H).
  apply negb_true_iff in Hc. now rewrite Hc, IH.
Qed.

Lemma take_token_delim (ds : list ascii) (s : string) (d : ascii) (rest : string) :
  no_delim ds s = true -> mem_char d ds = true ->
  take_token ds (s ++ String d rest) = (s, rest).
Proof.
  intros H Hd. induction s as [|c s IH]; simpl.
  - now rewrite Hd.
  - simpl in H. apply andb_true_iff in H. destruct H as (Hc & H).
    apply negb_true_iff in Hc. now rewrite Hc, IH.
Qed.

Lemma strtok_token (ds : list ascii) (c : ascii) (s : string) (d : ascii)
      (rest : string) :
  no_delim ds (String c s) = true -> mem_char d ds = true ->
  strtok ds (String c s ++ String d rest) = Some (String c s, rest).
Proof.
  intros H Hd. unfold strtok.
  pose proof H as H'. simpl in H'.
  apply andb_true_iff in H'. destruct H' as (Hc & _).
  apply negb_true_iff in Hc.
  cbn [append skip_delims]. rewrite Hc.
  change (String c (s ++ String d rest)) with (String c s ++ String d rest).
  now rewrite take_token_delim.
Qed.

Lemma strtok_last (ds : list ascii) (c : ascii) (s : string) :
  no_delim ds (String c s) = true ->
  strtok ds (String c s) = Some (String c s, "").
Proof.
  intros H. unfold strtok.
  pose proof H as H'. simpl in H'.
  apply andb_true_iff in H'. destruct H' as (Hc & _).
  apply negb_true_iff in Hc.
  cbn [skip_delims]. rewrite Hc. now rewrite take_token_all.
Qed.

(** A command name, a space and a parameter text are split there; the
    parameter text is kept as it is. *)
Lemma split_command_params (name p : string) :
  name <> "" -> no_delim [SP; NL] name = true ->
  p <> "" -> no_char NL p = true ->
  split_command (name ++ String SP p) = (Some name, Some p).
Proof.
  intros Hn Hd Hp Hl. unfold split_command.
  destruct name as [|c name]; [contradiction |].
  rewrite strtok_token by (trivial; reflexivity).
  destruct p as [|x p]; [contradiction |].
  cbn [params_loop].
  rewrite strtok_last by now apply no_char_no_delim.
  destruct (String.length (String x p)); reflexivity.
Qed.

(** A command name alone has no parameters. *)
Lemma split_command_bare (name : string) :
  name <> "" -> no_delim [SP; NL] name = true ->
  split_command name = (Some name, None).
Proof.
  intros Hn Hd. unfold split_command.
  destruct name as [|c name]; [contradiction |].
  now rewrite strtok_last.
Qed.

(** ** [want] *)

(** C8, as the code has it.  When the output of the child ends after at
    least one character and before a line terminator, [get_line] hands
    these characters to [handle_want] as the line (echoing them when echo
    is on): [want text] passes if they are equal to [text] and fails
    otherwise, in which case [parse_input] reports a command failure at
    the current line. *)
Theorem want_at_eof_takes_partial_line
        (w : world) (st : state) (c : proc) (p t : string) (prev : Z) :
  readPipe st = OpenFile ->
  child st = Some c ->
  ended c <> None ->
  pr_out c = t ->
  plain t = true ->
  t <> "" ->
  let st1 := set_child (Some (drained "" c)) st in
  let st2 := if echo st then print (t ++ String NL "") st1 else st1 in
  handle_want (Some p) st = Ret (if String.eqb t p then 2 else -1) st2 /\
  (t <> p -> p <> "" -> no_char NL p = true ->
   block_open prev st ->
   ((0 <? timer st) && w_deadline w (lineCount st))%bool = false ->
   loop_body w ("want " ++ p) prev st
   = Stop (throw_error ERR_COMMAND (lineCount st) None st2)).
Proof.
  intros Hr Hc He Ho Hp Hn st1 st2.
  assert (Hw : handle_want (Some p) st
               = Ret (if String.eqb t p then 2 else -1) st2).
  { unfold handle_want. rewrite Hr, Hc.
    unfold pipe_tail. destruct (ended c); [|contradiction].
    rewrite Ho, (get_line_eof t Hp Hn). cbv beta iota zeta.
    fold st1. change (echo st1) with (echo st). fold st2.
    now destruct (String.eqb t p). }
  split; [exact Hw |].
  intros Hne Hpe Hl Hb Hd. unfold loop_body.
  change (block_end ("want " ++ p)) with false. cbn [negb].
  unfold block_open in Hb. rewrite Hb, Z.eqb_refl. cbn [negb]. rewrite Hd.
  change ("want " ++ p) with ("want" ++ String SP p).
  rewrite split_command_params by (trivial; discriminate).
  change (handle_command w (Some "want") (Some p) st)
    with (handle_want (Some p) st).
  rewrite Hw.
  replace (String.eqb t p) with false
    by (symmetry; now apply String.eqb_neq).
  cbn [after]. change (-1 =? -1) with true. cbv iota.
  replace (lineCount st2) with (lineCount st); [reflexivity |].
  unfold st2, st1. now destruct (echo st).
Qed.

(** The child prints "OK" without a line terminator and exits. *)
Lemma want_at_eof_takes_partial_line_witness :
  handle_want (Some "OK") (state_with (prog_say "OK" 0))
  = Ret 2 (set_child (Some (drained "" {| pr_prog := prog_say "OK" 0;
                                           pr_hist := [];
                                           pr_out := "OK";
                                           pr_reaped := false |}))
             (state_with (prog_say "OK" 0))).
Proof.
  refine (proj1 (want_at_eof_takes_partial_line
                   (world_of (prog_say "OK" 0) "" "")
                   (state_with (prog_say "OK" 0)) _ "OK" "OK" 1
                   eq_refl eq_refl _ eq_refl eq_refl _)).
  - discriminate.
  - discriminate.
Defined.

(** C8 as stated fails: the output of the child reaches its end before a
    full line arrived, and [want OK] passes; the run ends with status 0
    and prints nothing. *)
Lemma want_at_eof_counterexample :
  no_char NL (p_start (prog_say "OK" 0)) = true /\
  p_end (prog_say "OK" 0) [] = Some (Exited 0) /\
  rc_of (handle_want (Some "OK") (state_with (prog_say "OK" 0))) = Some 2 /\
  exit_status
    (main (world_of (prog_say "OK" 0)
                    (text_of ["say"; "want OK"; "exit 0"; ""]) "")
          ["script"]) = Some 0 /\
  printed
    (main (world_of (prog_say "OK" 0)
                    (text_of ["say"; "want OK"; "exit 0"; ""]) "")
          ["script"]) = "".
Proof. repeat split; vm_compute; reflexivity. Qed.

(** ** Pipes and flags along a block *)

Section Pipes.

Variable w : world.

Lemma interactive_loop_pipes fuel word :
  forall st rc st',
    interactive_loop fuel word st = Ret rc st' ->
    readPipe st' = readPipe st /\ writePipe st' = writePipe st.
Proof.
  induction fuel as [|f IH]; intros st rc st' H; [discriminate |].
  cbn [interactive_loop] in H. unfold read_stdin in H.
  destruct (get_line_file (stdin st)) as [[line|] rest].
  - destruct (String.eqb line word).
    + inversion H; subst. simpl. auto.
    + destruct (handle_send (Some line) (set_stdin rest st))
        as [rc2 st2| | | | |] eqn:S; try discriminate.
      apply IH in H. destruct H as (-> & ->).
      unfold handle_send in S. returned S; simpl; auto.
  - inversion H; subst. simpl. auto.
Qed.

(** What a command that returned did to the pipes and to the [exit]
    flag.  Only [endinput] touches a pipe: it closes the one to the
    child. *)
Lemma handle_command_pipes c params st rc st' :
  handle_command w (Some c) params st = Ret rc st' ->
  readPipe st' = readPipe st /\
  ((c <> "endinput" /\ writePipe st' = writePipe st) \/
   (c = "endinput" /\ writePipe st = OpenFile /\ writePipe st' = ClosedFile)) /\
  (sawExit st = true -> sawExit st' = true) /\
  (c = "exit" -> rc <> -1 -> sawExit st' = true).
Proof.
  unfold handle_command. intros H.
  destruct (String.eqb c "exit") eqn:E1.
  { apply String.eqb_eq in E1. subst c.
    unfold handle_exit, exit_test in H.
    returned H; simpl; repeat split; auto; try congruence;
      left; split; auto; discriminate. }
  apply String.eqb_neq in E1.
  assert (Hx : c = "exit" -> rc <> -1 -> sawExit st' = true)
    by (intros; contradiction).
  destruct (String.eqb c "want") eqn:E2.
  { apply String.eqb_eq in E2. subst c. unfold handle_want in H.
    returned H; simpl; repeat split; auto; left; split; auto; discriminate. }
  destruct (String.eqb c "send") eqn:E3.
  { apply String.eqb_eq in E3. subst c. unfold handle_send in H.
    returned H; simpl; repeat split; auto; left; split; auto; discriminate. }
  destruct (String.eqb c "exists") eqn:E4.
  { apply String.eqb_eq in E4. subst c. unfold handle_exists in H.
    returned H; simpl; repeat split; auto; left; split; auto; discriminate. }
  destruct (String.eqb c "size>") eqn:E5.
  { apply String.eqb_eq in E5. subst c. unfold handle_size in H.
    returned H; simpl; repeat split; auto; left; split; auto; discriminate. }
  destruct (String.eqb c "echo") eqn:E6.
  { apply String.eqb_eq in E6. subst c. unfold handle_echo in H.
    returned H; simpl; repeat split; auto; left; split; auto; discriminate. }
  destruct (String.eqb c "endinput") eqn:E7.
  { apply String.eqb_eq in E7. subst c. unfold handle_endinput in H.
    returned H; simpl; repeat split; auto. }
  apply String.eqb_neq in E7.
  destruct (String.eqb c "interactive") eqn:E8.
  { unfold handle_interactive in H.
    assert (G : readPipe st' = readPipe st /\ writePipe st' = writePipe st /\
                sawExit st' = sawExit st).
    { destruct params as [p|]; [|inversion H; subst; auto].
      destruct (scan_word p); [|inversion H; subst; auto].
      pose proof (interactive_loop_kept _ _ _ _ _ H) as (_ & G3 & _).
      apply interactive_loop_pipes in H. destruct H. auto. }
    destruct G as (G1 & G2 & G3).
    repeat split; auto; try congruence. }
  destruct (String.eqb c "limit") eqn:E9.
  { unfold handle_limit, alarm in H.
    returned H; simpl; repeat split; auto. }
  inversion H; subst. repeat split; auto.
Qed.

Lemma run_new_process_pipes cmd st st' :
  run_new_process w cmd st = Ret 0 st' ->
  readPipe st' = OpenFile /\ writePipe st' = OpenFile.
Proof.
  unfold run_new_process. intros H. returned H; simpl; auto.
Qed.

(** Inside a block the pipe from the child is open; the pipe to the child
    is closed exactly when an [endinput] was carried out; and the [exit]
    flag is up as soon as an [exit] was carried out. *)
Lemma reach_pipes args k cmds prev input st :
  reach w args k cmds prev input st ->
  block_open prev st ->
  readPipe st = OpenFile /\
  (In "endinput" cmds -> writePipe st = ClosedFile) /\
  (~ In "endinput" cmds -> writePipe st = OpenFile) /\
  (In "exit" cmds -> sawExit st = true).
Proof.
  unfold block_open.
  induction 1 as [input st0 H0 | k cmds prev input st line st1 prev' st2 R IH P L B].
  - apply get_input_source_initial in H0. destruct H0 as (Hb & _). lia.
  - intros Ho.
    pose proof (reach_inv _ _ _ _ _ _ _ R) as (_ & _ & _ & Ii).
    pose proof (read_input_fields _ _ _ _ L) as
      (_ & _ & _ & Lr & Lw & Le & _ & Lb & _).
    unfold loop_body in B. unfold block_cmds.
    destruct (block_end line) eqn:EB; cbn [negb] in B.
    + unfold end_block in B. returned B. simpl in *. lia.
    + destruct (prev =? blockCount st1) eqn:EP; cbn [negb] in B.
      * apply Z.eqb_eq in EP.
        destruct ((0 <? timer st1) && w_deadline w (lineCount st1))%bool;
          [discriminate |].
        unfold command_of.
        destruct (split_command line) as [command params]. simpl fst.
        destruct (handle_command w command params st1) as [rc s1| | | | |] eqn:H;
          simpl in B; try discriminate.
        destruct (rc =? -1) eqn:Erc; [discriminate |].
        apply Z.eqb_neq in Erc.
        inversion B; subst prev' st2. simpl.
        destruct command as [c|]; [|discriminate H].
        destruct (handle_command_pipes _ _ _ _ _ H) as (Hr & Hw & Hs & Hx).
        destruct IH as (Ir & Iy & In_ & Ie); [congruence |].
        split; [congruence |].
        split; [|split].
        -- intros Hin. apply in_app_or in Hin.
           destruct Hw as [(Hne & Hw) | (_ & _ & Hw)]; [|exact Hw].
           destruct Hin as [Hin | [Hin | []]]; [|congruence].
           rewrite Hw, Lw. now apply Iy.
        -- intros Hin.
           destruct Hw as [(Hne & Hw) | (-> & _ & _)].
           ++ rewrite Hw, Lw. apply In_. intros Hc. apply Hin.
              apply in_or_app. now left.
           ++ exfalso. apply Hin. apply in_or_app. right. now left.
        -- intros Hin. apply in_app_or in Hin.
           destruct Hin as [Hin | [Hin | []]].
           ++ apply Hs. rewrite Le. now apply Ie.
           ++ now apply Hx.
      * destruct (run_new_process w line st1) as [rc s1| | | | |] eqn:H;
          simpl in B; try discriminate.
        destruct (negb (rc =? 0)) eqn:Erc; [discriminate |].
        apply negb_false_iff, Z.eqb_eq in Erc. subst rc.
        inversion B; subst prev' st2. simpl.
        apply run_new_process_pipes in H. destruct H as (Hr & Hw).
        repeat split; trivial; intros [].
Qed.

End Pipes.

(** ** The end of a block *)

(** With the [exit] flag up and both pipes open, the blank line signals
    the child, forgets it, closes both pipes, cancels the alarm, lowers
    both flags and moves on to the next block. *)
Lemma end_block_resets (st : state) :
  sawExit st = true -> readPipe st = OpenFile -> writePipe st = OpenFile ->
  exists st',
    end_block st = Next (blockCount st) st' /\
    killed st' = (killed st ++ [pid st])%list /\
    pid st' = -1 /\ child st' = None /\
    readPipe st' = ClosedFile /\ writePipe st' = ClosedFile /\
    timer st' = 0 /\ sawExit st' = false /\ sawLimit st' = false /\
    blockCount st' = blockCount st + 1 /\
    lineCount st' = lineCount st + 1.
Proof.
  intros He Hr Hw. unfold end_block. rewrite He. cbn [negb].
  simpl readPipe. simpl writePipe. rewrite Hr, Hw.
  eexists. split; [reflexivity |]. simpl. repeat split.
Qed.

(** The same at the level of the run: a block in which [exit] was carried
    out and [endinput] was not is closed by its blank line, and nothing
    of it is left for the next block. *)
Lemma block_end_resets (w : world) args k cmds prev input st st1 :
  reach w args k cmds prev input st ->
  block_open prev st ->
  In "exit" cmds -> ~ In "endinput" cmds ->
  pending st = None ->
  read_input input st = (Some "", st1) ->
  exists st',
    loop_body w "" prev st1 = Next (blockCount st) st' /\
    reach w args (S k) [] (blockCount st) input st' /\
    ~ block_open (blockCount st) st' /\
    killed st' = (killed st ++ [pid st])%list /\
    pid st' = -1 /\ child st' = None /\
    readPipe st' = ClosedFile /\ writePipe st' = ClosedFile /\
    timer st' = 0 /\ sawExit st' = false /\ sawLimit st' = false /\
    blockCount st' = blockCount st + 1.
Proof.
  intros R Ho Hx Hn P L.
  destruct (reach_pipes w _ _ _ _ _ _ R Ho) as (Hr & _ & Hw & He).
  pose proof (read_input_fields _ _ _ _ L) as
    (_ & Lp & _ & Lr & Lw & Le & _ & Lb & _ & _ & Lk & _).
  destruct (end_block_resets st1) as (st' & B & F); try congruence.
  { rewrite Le. now apply He. }
  { rewrite Lw. now apply Hw. }
  exists st'.
  assert (B' : loop_body w "" prev st1 = Next (blockCount st) st')
    by (rewrite <- Lb; exact B).
  split; [exact B' |].
  split; [exact (reach_step w args k cmds prev input st "" st1 _ st' R P L B') |].
  destruct F as (F1 & F2 & F3 & F4 & F5 & F6 & F7 & F8 & F9 & F10).
  unfold block_open. rewrite F1, Lk, Lp, F9, Lb.
  repeat split; trivial. lia.
Qed.

(** C7 fails after [endinput].  A block in which both [endinput] and
    [exit] were carried out reaches its blank line with the pipe to the
    child closed; the blank line closes it a second time, which C leaves
    undefined, so that the reset of the block is not reached. *)
Theorem block_end_after_endinput
        (w : world) (args : list string) (k : nat) (cmds : list string)
        (prev : Z) (input : source) (st st1 : state) :
  reach w args k cmds prev input st ->
  block_open prev st ->
  In "exit" cmds -> In "endinput" cmds ->
  pending st = None ->
  read_input input st = (Some "", st1) ->
  exists st', main w args = Undefined DoubleClose st'.
Proof.
  intros R Ho Hx Hn P L.
  destruct (reach_pipes w _ _ _ _ _ _ R Ho) as (Hr & Hw & _ & He).
  pose proof (read_input_fields _ _ _ _ L) as
    (_ & _ & _ & Lr & Lw & Le & _).
  set (st2 := set_child None (set_pid (-1) (kill (pid st1) st1))).
  assert (B : loop_body w "" prev st1
              = Stop (Undefined DoubleClose (set_readPipe ClosedFile st2))).
  { unfold loop_body, end_block. simpl block_end. cbn [negb].
    rewrite Le, (He Hx). cbn [negb]. simpl readPipe. simpl writePipe.
    rewrite Lr, Hr, Lw, (Hw Hn). reflexivity. }
  exists (set_readPipe ClosedFile st2).
  rewrite (reach_main _ _ _ _ _ _ _ R).
  now rewrite (run_from_stop w input prev st "" st1 _ P L B).
Qed.

Lemma block_end_after_endinput_witness :
  exists st', main world_endinput ["script"] = Undefined DoubleClose st'.
Proof.
  eapply (block_end_after_endinput world_endinput ["script"]).
  - eapply reach_step.
    + eapply reach_step.
      * eapply reach_step.
        -- apply reach_start. reflexivity.
        -- reflexivity.
        -- vm_compute; reflexivity.
        -- vm_compute; reflexivity.
      * reflexivity.
      * vm_compute; reflexivity.
      * vm_compute; reflexivity.
    + reflexivity.
    + vm_compute; reflexivity.
    + vm_compute; reflexivity.
  - reflexivity.
  - simpl. auto.
  - simpl. auto.
  - reflexivity.
  - vm_compute; reflexivity.
Defined.

(** C1 fails on the script of [world_endinput].  Its only block is well
    formed, its two commands are carried out and pass, and the run does
    not end with status 0: at the blank line it closes the pipe to the
    child for the second time. *)
Theorem endinput_script_not_success :
  (exists k cmds prev input st,
      reach world_endinput ["script"] k cmds prev input st /\
      k = 0%nat /\ cmds = ["endinput"; "exit"] /\
      block_open prev st /\ sawExit st = true /\
      script st = String NL "") /\
  (exists st', main world_endinput ["script"] = Undefined DoubleClose st') /\
  exit_status (main world_endinput ["script"]) = None /\
  printed (main world_endinput ["script"]) = "".
Proof.
  split; [|split; [|split]].
  - do 5 eexists. split; [|split; [|split; [|split; [|split]]]].
    + eapply reach_step.
      * eapply reach_step.
        -- eapply reach_step.
           ++ apply reach_start. reflexivity.
           ++ reflexivity.
           ++ vm_compute; reflexivity.
           ++ vm_compute; reflexivity.
        -- reflexivity.
        -- vm_compute; reflexivity.
        -- vm_compute; reflexivity.
      * reflexivity.
      * vm_compute; reflexivity.
      * vm_compute; reflexivity.
    + reflexivity.
    + reflexivity.
    + reflexivity.
    + reflexivity.
    + reflexivity.
  - eexists. vm_compute. reflexivity.
  - vm_compute. reflexivity.
  - vm_compute. reflexivity.
Qed.

(** ** [send] and [want] *)

Lemma format_noargs_plain (s : string) :
  no_char "%" s = true -> format_noargs s = Some s.
Proof.
  induction s as [|c s IH]; [reflexivity |].
  cbn [no_char format_noargs]. intros H.
  apply andb_true_iff in H. destruct H as (Hc & Hs).
  apply negb_true_iff in Hc. rewrite Hc, (IH Hs). reflexivity.
Qed.

(** X12.  A text without [%] makes the round trip: [send] writes the text and
    one line terminator, a child that writes this back verbatim is read
    by [want], which gets the text without the terminator and passes. *)
Lemma send_want_round_trip (st : state) (c : proc) (text : string) :
  writePipe st = OpenFile -> readPipe st = OpenFile ->
  child st = Some c -> pr_out c = "" ->
  p_accept (pr_prog c) (pr_hist c) (text ++ String NL "") = WriteOk ->
  p_react (pr_prog c) (pr_hist c) (Wrote (text ++ String NL ""))
  = text ++ String NL "" ->
  plain text = true -> no_char "%" text = true ->
  exists st1 st2,
    handle_send (Some text) st = Ret 3 st1 /\
    option_map pr_hist (child st1)
    = Some (pr_hist c ++ [Wrote (text ++ String NL "")])%list /\
    handle_want (Some text) st1 = Ret 2 st2 /\
    option_map pr_out (child st2) = Some "".
Proof.
  intros Hw Hr Hc Ho Ha He Hp Hf.
  assert (Hfmt : format_noargs (text ++ String NL "")
                 = Some (text ++ String NL "")).
  { apply format_noargs_plain. rewrite no_char_append, Hf. reflexivity. }
  set (c1 := feed (Wrote (text ++ String NL "")) c).
  exists (set_child (Some c1) st).
  exists ((if echo st then print (text ++ String NL "") else fun s => s)
            (set_child (Some (drained "" c1)) (set_child (Some c1) st))).
  split; [|split; [|split]].
  - unfold handle_send. rewrite Hw, Hc. cbv zeta. now rewrite Hfmt, Ha.
  - reflexivity.
  - unfold handle_want. simpl readPipe. simpl child. rewrite Hr.
    unfold c1 at 2. unfold feed at 1. simpl pr_out. rewrite Ho, He.
    cbn [append]. rewrite (get_line_line _ text "" Hp).
    cbv beta iota zeta. rewrite String.eqb_refl. cbn [negb].
    simpl echo. now destruct (echo st).
  - now destruct (echo st).
Qed.

(** C5 fails on texts with [%].  [send %%] hands the text to [fprintf] as
    the format: a single [%] and the terminator are written.  [cat]
    writes them back, [want %%] reads "%" and fails, and the run reports
    a command failure on line 3. *)
Theorem send_percent_breaks_round_trip :
  (exists st1,
      handle_send (Some "%%") (state_with prog_cat) = Ret 3 st1 /\
      option_map pr_hist (child st1) = Some [Wrote (String "%" (String NL ""))] /\
      option_map pr_out (child st1) = Some (String "%" (String NL "")) /\
      rc_of (handle_want (Some "%%") st1) = Some (-1)) /\
  exit_status
    (main (world_of prog_cat
                    (text_of ["cat"; "send %%"; "want %%"; "endinput";
                              "exit 0"; ""]) "")
          ["script"]) = Some 1 /\
  printed
    (main (world_of prog_cat
                    (text_of ["cat"; "send %%"; "want %%"; "endinput";
                              "exit 0"; ""]) "")
          ["script"]) = "Test failed on line 3." ++ String NL "".
Proof.
  split; [|split].
  - eexists. split; [vm_compute; reflexivity |].
    split; [|split]; vm_compute; reflexivity.
  - vm_compute. reflexivity.
  - vm_compute. reflexivity.
Qed.

(** ** The run always has an outcome *)

Lemma interactive_loop_fuel (word : string) :
  forall fuel st,
    (String.length (stdin st) < fuel)%nat ->
    interactive_loop fuel word st <> NoFuel.
Proof.
  induction fuel as [|f IH]; intros st Hf; [lia |].
  cbn [interactive_loop]. unfold read_stdin.
  destruct (get_line_file (stdin st)) as [[line|] rest] eqn:E;
    [|discriminate].
  apply get_line_file_some in E.
  destruct (String.eqb line word); [discriminate |].
  destruct (handle_send (Some line) (set_stdin rest st))
    as [rc2 st2| | | | |] eqn:S; try discriminate.
  - apply IH. apply handle_send_kept in S. destruct S as (_ & _ & ->).
    simpl. lia.
  - unfold handle_send in S. break_match S; discriminate S.
Qed.

Lemma handle_command_fuel (w : world) command params st :
  handle_command w command params st <> NoFuel.
Proof.
  unfold handle_command. destruct command as [c|]; [|discriminate].
  repeat match goal with
         | |- (if ?b then _ else _) <> _ => destruct b
         end; try discriminate.
  - unfold handle_exit, exit_test. intros H. break_match H; discriminate H.
  - unfold handle_want. intros H. break_match H; discriminate H.
  - unfold handle_send. intros H. break_match H; discriminate H.
  - unfold handle_exists. intros H. break_match H; discriminate H.
  - unfold handle_size. intros H. break_match H; discriminate H.
  - unfold handle_echo. intros H. break_match H; discriminate H.
  - unfold handle_endinput. intros H. break_match H; discriminate H.
  - unfold handle_interactive.
    destruct params as [p|]; [|discriminate].
    destruct (scan_word p); [|discriminate].
    apply interactive_loop_fuel. lia.
  - unfold handle_limit. intros H. break_match H; discriminate H.
Qed.

Lemma loop_body_fuel (w : world) line prev st :
  loop_body w line prev st <> Stop OutOfFuel.
Proof.
  unfold loop_body, end_block, after, blocked, handle_sigs, throw_error.
  destruct (negb (block_end line)).
  - destruct (negb (prev =? blockCount st)).
    + destruct (run_new_process w line st) eqn:R;
        try discriminate.
      * destruct (negb (rc =? 0)); discriminate.
      * destruct s; discriminate.
      * destruct (0 <? timer st0); discriminate.
      * unfold run_new_process in R. break_match R; discriminate R.
    + destruct ((0 <? timer st) && w_deadline w (lineCount st))%bool;
        [discriminate |].
      destruct (split_command line) as [command params].
      destruct (handle_command w command params st) eqn:R;
        try discriminate.
      * destruct (rc =? -1); discriminate.
      * destruct s; discriminate.
      * destruct (0 <? timer st0); discriminate.
      * now apply handle_command_fuel in R.
  - intros H. break_match H; discriminate H.
Qed.

Lemma parse_loop_total (w : world) (input : source) :
  forall fuel prev st,
    (unread st < fuel)%nat -> parse_loop w fuel input prev st <> OutOfFuel.
Proof.
  induction fuel as [|f IH]; intros prev st Hf; [lia |].
  cbn [parse_loop].
  destruct (pending st) as [s|].
  { destruct s; discriminate. }
  destruct (read_input input st) as [[line|] st1] eqn:R; [|discriminate].
  apply read_input_some in R. destruct R as (Hlt & _).
  destruct (loop_body w line prev st1) as [prev' st2|o] eqn:B.
  - apply loop_body_unread in B. apply IH. lia.
  - intros ->. now apply loop_body_fuel in B.
Qed.

(** X25.  The loop of [parse_input] ends: every pass reads at least one
    character of the script or of standard input and nothing is put
    back, so a run on a finite input always comes to an exit, a hang on
    a read or a [wait] that never returns, or an undefined step; the
    bound on the passes that the model carries is never what ends it. *)
Lemma main_total (w : world) (args : list string) : main w args <> OutOfFuel.
Proof.
  unfold main, get_input_source, parse_input, run_from.
  destruct args as [|path args].
  - intros H.
    destruct (parse_loop w (S (unread (initial w))) FromStdin 0 (initial w))
      eqn:E; try discriminate H.
    apply parse_loop_total in E; [exact E | lia].
  - destruct (w_fopen w path) as [content|]; [|discriminate].
    intros H.
    destruct (parse_loop w (S (unread (set_script content (initial w))))
                         FromFile 0 (set_script content (initial w)))
      eqn:E; try discriminate H.
    apply parse_loop_total in E; [exact E | lia].
Qed.

(** ** Well-formed scripts *)

Section WellFormed.

Variable w : world.
Variable args : list string.

Lemma read_line (l : string) (rest : list string) (st : state) :
  plain l = true -> script st = text_of (l :: rest) ->
  read_input FromFile st = (Some l, set_script (text_of rest) st).
Proof.
  intros Hl Hs. unfold read_input, get_line_file.
  rewrite Hs. cbn [text_of]. now rewrite (get_line_line AtEOF l _ Hl).
Qed.

Lemma line_not_blank (l : string) : l <> "" -> block_end l = false.
Proof.
  intros H. unfold block_end. now apply String.eqb_neq.
Qed.

Lemma loop_body_command_next line prev st prev' st' :
  block_end line = false -> prev = blockCount st ->
  loop_body w line prev st = Next prev' st' ->
  prev' = prev /\ blockCount st' = blockCount st /\ script st' = script st.
Proof.
  intros Hb Hp. unfold loop_body. rewrite Hb. cbn [negb].
  rewrite Hp, Z.eqb_refl. cbn [negb].
  destruct ((0 <? timer st) && w_deadline w (lineCount st))%bool;
    [discriminate |].
  destruct (split_command line) as [command params].
  destruct (handle_command w command params st) as [rc s1| | | | |] eqn:H;
    simpl; try discriminate.
  apply handle_command_kept in H. destruct H as [Kb _ Ks _ _].
  destruct (rc =? -1); [discriminate |].
  intros E. inversion E; subst. simpl. auto.
Qed.

Lemma loop_body_program_next line prev st prev' st' :
  block_end line = false -> prev <> blockCount st ->
  loop_body w line prev st = Next prev' st' ->
  prev' = blockCount st' /\ script st' = script st.
Proof.
  intros Hb Hp. unfold loop_body. rewrite Hb. cbn [negb].
  apply Z.eqb_neq in Hp. rewrite Hp. cbn [negb].
  destruct (run_new_process w line st) as [rc s1| | | | |] eqn:H;
    simpl; try discriminate.
  apply run_new_process_kept in H. destruct H as (_ & _ & Hs & _).
  destruct (negb (rc =? 0)); [discriminate |].
  intros E. inversion E; subst. simpl. auto.
Qed.

Lemma end_block_script st prev' st' :
  end_block st = Next prev' st' -> script st' = script st.
Proof. unfold end_block. intros H. returned H. reflexivity. Qed.

(** The commands of a block, then its blank line. *)
Lemma run_commands (rest : list string) :
  (forall k prev st,
      reach w args k [] prev FromFile st -> ~ block_open prev st ->
      script st = text_of rest -> good w args) ->
  forall cs k done prev st,
    reach w args k done prev FromFile st ->
    block_open prev st ->
    script st = text_of (cs ++ "" :: rest) ->
    Forall line_ok cs ->
    In "exit" (done ++ map command_of cs) ->
    ~ In "endinput" (done ++ map command_of cs) ->
    good w args.
Proof.
  intros K. induction cs as [|c cs IH]; intros k done prev st R Ho Hs Hl Hx Hn.
  - simpl in Hx, Hn. rewrite app_nil_r in Hx, Hn.
    destruct (pending st) eqn:P.
    { right. exists k, done, prev, st. split; [exact R |]. left. congruence. }
    pose proof (read_line "" rest st eq_refl Hs) as L.
    destruct (block_end_resets w args k done prev FromFile st _ R Ho Hx Hn P L)
      as (st' & B & R' & Hi & _).
    apply (K (S k) (blockCount st) st' R' Hi).
    change (loop_body w "" prev (set_script (text_of rest) st))
      with (end_block (set_script (text_of rest) st)) in B.
    now rewrite (end_block_script _ _ _ B).
  - inversion Hl as [|? ? (Hp & Hne) Hl']; subst.
    destruct (pending st) eqn:P.
    { right. exists k, done, prev, st. split; [exact R |]. left. congruence. }
    pose proof (read_line c (cs ++ "" :: rest) st Hp Hs) as L.
    destruct (loop_body w c prev (set_script (text_of (cs ++ "" :: rest)) st))
      as [prev' st2 | o] eqn:B.
    + pose proof (reach_step w args k done prev FromFile st c _ prev' st2
                    R P L B) as R'.
      unfold blocks_done, block_cmds in R'.
      rewrite (line_not_blank c Hne) in R'. simpl blockCount in R'.
      unfold block_open in Ho. rewrite Ho, Z.eqb_refl in R'.
      assert (Ho1 : prev = blockCount
                             (set_script (text_of (cs ++ "" :: rest)) st))
        by exact Ho.
      destruct (loop_body_command_next _ _ _ _ _ (line_not_blank c Hne) Ho1 B)
        as (-> & Hb & Hs').
      apply (IH k (done ++ [command_of c])%list prev st2 R').
      * unfold block_open. simpl in Hb. congruence.
      * exact Hs'.
      * exact Hl'.
      * rewrite <- app_assoc. exact Hx.
      * rewrite <- app_assoc. exact Hn.
    + right. exists k, done, prev, st. split; [exact R |]. right.
      exists c, (set_script (text_of (cs ++ "" :: rest)) st), o. auto.
Qed.

Lemma In_count_one (l : list string) (x : string) :
  count_occ string_dec l x = 1%nat -> In x l.
Proof.
  intros H. apply (count_occ_In string_dec). lia.
Qed.

(** Block after block. *)
Lemma run_blocks :
  forall bs k prev st,
    reach w args k [] prev FromFile st ->
    ~ block_open prev st ->
    script st = text_of (script_lines bs) ->
    Forall well_formed bs -> Forall no_endinput bs ->
    good w args.
Proof.
  induction bs as [|b bs IH]; intros k prev st R Hi Hs Hw He.
  - pose proof (reach_inv _ _ _ _ _ _ _ R) as (_ & _ & Hp & _).
    assert (P : pending st = None).
    { destruct (pending st); [|reflexivity]. exfalso. apply Hi, Hp. discriminate. }
    left. exists (set_script "" st).
    rewrite (reach_main _ _ _ _ _ _ _ R).
    rewrite (run_from_eof w FromFile prev st (set_script "" st) P);
      [reflexivity |].
    unfold read_input, get_line_file. now rewrite Hs.
  - inversion Hw as [|? ? ((Hp & Hne) & Hl & Hc) Hw']; subst.
    inversion He as [|? ? Hn He']; subst.
    pose proof (reach_inv _ _ _ _ _ _ _ R) as (_ & _ & Hpe & _).
    assert (P : pending st = None).
    { destruct (pending st); [|reflexivity]. exfalso. apply Hi, Hpe. discriminate. }
    change (script_lines (b :: bs))
      with ((b_program b :: (b_commands b ++ [""])) ++ script_lines bs)%list
      in Hs.
    rewrite <- app_comm_cons, <- app_assoc in Hs. cbn [app] in Hs.
    pose proof (read_line (b_program b) _ st Hp Hs) as L.
    match type of L with
    | _ = (_, ?s) => set (st1 := s) in *
    end.
    destruct (loop_body w (b_program b) prev st1) as [prev' st2 | o] eqn:B.
    + pose proof (reach_step w args k [] prev FromFile st _ _ prev' st2
                    R P L B) as R'.
      unfold blocks_done, block_cmds in R'.
      rewrite (line_not_blank _ Hne) in R'.
      assert (Hi1 : prev <> blockCount st1) by exact Hi.
      pose proof Hi1 as Hi2. apply Z.eqb_neq in Hi2. rewrite Hi2 in R'.
      destruct (loop_body_program_next _ _ _ _ _ (line_not_blank _ Hne) Hi1 B)
        as (Ho & Hs').
      apply (run_commands (script_lines bs)
               (fun k prev st Hr Hb Ht => IH k prev st Hr Hb Ht Hw' He')
               (b_commands b) k [] prev' st2 R' Ho Hs' Hl).
      * now apply In_count_one.
      * exact Hn.
    + right. exists k, [], prev, st. split; [exact R |]. right.
      exists (b_program b), st1, o. auto.
Qed.

End WellFormed.

(** X13.  A script read from a file, made of well-formed blocks none of
    which uses [endinput]: the run ends with status 0, unless it stopped at one
    of the program or command lines, that is, unless a program could not
    be started or a command did not pass.  In particular no blank line
    stops it. *)
Theorem well_formed_script_runs
        (w : world) (path : string) (more : list string) (bs : list block) :
  w_fopen w path = Some (text_of (script_lines bs)) ->
  Forall well_formed bs ->
  Forall no_endinput bs ->
  (exists st, main w (path :: more) = Exit 0 st) \/
  stopped_at_line w (path :: more).
Proof.
  intros Ho Hw He.
  apply (run_blocks w (path :: more) bs 0 0
           (set_script (text_of (script_lines bs)) (initial w))); trivial.
  - apply reach_start. unfold get_input_source. now rewrite Ho.
  - unfold block_open. simpl. lia.
Qed.

(** A well-formed script with two blocks; echo is on in the first. *)
Example well_formed_run :
  let w := world_of (prog_say ("OK" ++ String NL "") 0)
                    (text_of (script_lines
                                [ {| b_program := "say";
                                     b_commands := ["echo on"; "want OK";
                                                    "limit 10"; "exit 0"] |};
                                  {| b_program := "say again";
                                     b_commands := ["exit 0"] |} ])) "" in
  exit_status (main w ["script"]) = Some 0 /\
  printed (main w ["script"]) = "OK" ++ String NL "".
Proof. split; vm_compute; reflexivity. Qed.

(** ** What is printed *)


(** When the output of the child ends before any character arrived,
    [get_line] returns NULL and [handle_want] hands it to [printf] and
    [strcmp].  On a system that answers the read through the null pointer
    with SIGSEGV, [handle_sigs] reports a command failure at the current
    line. *)
Lemma want_at_eof_no_char (st : state) (c : proc) (p : string) :
  readPipe st = OpenFile -> child st = Some c ->
  ended c <> None -> pr_out c = "" ->
  handle_want (Some p) st = Raise SIGSEGV (set_child (Some (drained "" c)) st) /\
  handle_sigs SIGSEGV (set_child (Some (drained "" c)) st)
  = throw_error ERR_COMMAND (lineCount st) None
                (set_child (Some (drained "" c)) st).
Proof.
  intros Hr Hc He Ho. split; [|reflexivity].
  unfold handle_want. rewrite Hr, Hc. unfold pipe_tail.
  destruct (ended c); [|contradiction]. now rewrite Ho.
Qed.

(** * More properties of the code *)

(** ** [get_line] *)

Lemma no_char_cstr (x : ascii) (s : string) :
  no_char x s = true -> no_char x (cstr s) = true.
Proof.
  induction s as [|c s IH]; simpl; [reflexivity |].
  intros H. apply andb_true_iff in H. destruct H as (Hc & Hs).
  destruct (Ascii.eqb c NUL); [reflexivity |].
  simpl. now rewrite Hc, IH.
Qed.

Lemma no_nul_cstr (s : string) : no_char NUL (cstr s) = true.
Proof.
  induction s as [|c s IH]; simpl; [reflexivity |].
  destruct (Ascii.eqb c NUL) eqn:E; [reflexivity |].
  simpl. now rewrite E, IH.
Qed.

Lemma plain_append_to_line (line buffer : string) :
  plain line = true -> no_char NL buffer = true ->
  plain (append_to_line line buffer) = true.
Proof.
  unfold plain, append_to_line. intros Hl Hb.
  apply andb_true_iff in Hl. destruct Hl as (Hl1 & Hl2).
  rewrite !no_char_append, Hl1, Hl2, no_nul_cstr, (no_char_cstr _ _ Hb).
  reflexivity.
Qed.

Lemma get_line_loop_plain (tl : tail_kind) (input : string) :
  forall line buffer n l rest,
    plain line = true -> no_char NL buffer = true ->
    get_line_loop tl input line buffer n = Line (Some l) rest ->
    plain l = true.
Proof.
  induction input as [|c input IH]; intros line buffer n l rest Hl Hb H.
  - simpl in H. destruct tl; [|discriminate].
    destruct (Nat.eqb n 0); inversion H; subst.
    now apply plain_append_to_line.
  - cbn [get_line_loop] in H.
    destruct (Ascii.eqb c NL) eqn:E.
    + inversion H; subst. now apply plain_append_to_line.
    + destruct (Nat.ltb n (BUFF_LEN - 1)).
      * apply IH in H; trivial.
        rewrite no_char_append, Hb. simpl. now rewrite E.
      * apply IH in H; trivial.
        -- now apply plain_append_to_line.
        -- simpl. now rewrite E.
Qed.

(** X1.  Whatever its length, a text without NUL is returned whole by
    [get_line], without its line terminator, and the stream is left right
    after the terminator: the buffer of [BUFF_LEN] characters through
    which the line is gathered does not show. *)
Theorem get_line_reads_one_line (tl : tail_kind) (t rest : string) :
  plain t = true ->
  get_line tl (t ++ String NL rest) = Line (Some t) rest.
Proof. apply get_line_line. Qed.

Lemma get_line_reads_one_line_witness :
  get_line Pending ("a line of thirty-one characters" ++ String NL "next")
  = Line (Some "a line of thirty-one characters") "next".
Proof.
  apply (get_line_reads_one_line Pending "a line of thirty-one characters"
                                 "next").
  reflexivity.
Defined.

(** X2.  On a file, [get_line] returns NULL exactly when nothing is left
    to read: any character left, even a lone line terminator, gives a
    line. *)
Theorem get_line_null_iff_exhausted (content : string) :
  fst (get_line_file content) = None <-> content = "".
Proof.
  split.
  - destruct (get_line_file content) as [l rest] eqn:E. simpl. intros ->.
    now apply get_line_file_none in E.
  - intros ->. reflexivity.
Qed.

(** X3.  A line that [get_line] returns holds neither a NUL nor a line
    terminator, and reading it took at least one character from the
    stream. *)
Theorem get_line_returns_c_string
        (tl : tail_kind) (input l rest : string) :
  get_line tl input = Line (Some l) rest ->
  plain l = true /\ (String.length rest < String.length input)%nat.
Proof.
  unfold get_line. intros H. split.
  - now apply (get_line_loop_plain tl input "" "" 0%nat l rest).
  - destruct input as [|c input].
    + simpl in H. destruct tl; discriminate.
    + cbn [get_line_loop] in H. destruct (Ascii.eqb c NL).
      * inversion H; subst. simpl. lia.
      * simpl in H. apply get_line_loop_rest in H. simpl. lia.
Qed.

Lemma get_line_returns_c_string_witness :
  plain "ab" = true /\
  (String.length "cd" < String.length ("ab" ++ String NL "cd"))%nat.
Proof.
  apply (get_line_returns_c_string AtEOF ("ab" ++ String NL "cd") "ab" "cd").
  reflexivity.
Defined.

(** ** Command lines *)

Lemma strtok_none_after (ds : list ascii) (c : ascii) (s : string) (d : ascii) :
  no_delim ds (String c s) = true -> mem_char d ds = true ->
  strtok ds (String c s ++ String d "") = Some (String c s, "").
Proof. intros H Hd. now apply strtok_token. Qed.

(** X4.  How [parse_input] splits a command line whose first word is
    [name]: the text after the first space is the parameter string, kept
    as it is (inner and leading spaces included); a name alone, or
    followed by a single space, has no parameters (NULL); and spaces
    before the name are skipped. *)
Theorem command_line_split (name : string) :
  name <> "" -> no_delim [SP; NL] name = true ->
  (forall p, p <> "" -> no_char NL p = true ->
             split_command (name ++ String SP p) = (Some name, Some p)) /\
  split_command name = (Some name, None) /\
  split_command (name ++ String SP "") = (Some name, None) /\
  (forall line, split_command (String SP line) = split_command line).
Proof.
  intros Hn Hd. split; [|split; [|split]].
  - intros p Hp Hl. now apply split_command_params.
  - now apply split_command_bare.
  - unfold split_command. destruct name as [|c name]; [contradiction |].
    rewrite strtok_none_after by (trivial; reflexivity). reflexivity.
  - intros line. unfold split_command, strtok. simpl skip_delims.
    destruct (skip_delims [SP; NL] line); reflexivity.
Qed.

Lemma command_line_split_witness :
  split_command "want  two  spaces " = (Some "want", Some " two  spaces ") /\
  split_command "endinput" = (Some "endinput", None).
Proof.
  destruct (command_line_split "want") as (H & _); [discriminate | reflexivity |].
  destruct (command_line_split "endinput") as (_ & H' & _);
    [discriminate | reflexivity |].
  split; [|exact H'].
  apply (H " two  spaces "); [discriminate | reflexivity].
Defined.

(** ** Program lines *)

Lemma tokens_count (cmd : string) :
  forall cur,
    (cur <> "" ->
     (List.length (tokens cmd cur) + b2n (ends_with_space cmd)
      = S (count_args cmd))%nat) /\
    (List.length (tokens cmd "") + b2n (ends_with_space cmd)
     + b2n (String.eqb cmd "")
     = b2n (negb (starts_with_space cmd)) + count_args cmd)%nat.
Proof.
  induction cmd as [|c r IH]; intros cur.
  - split.
    + intros Hc. destruct cur; [contradiction | reflexivity].
    + reflexivity.
  - assert (IH1 : forall cur', cur' <> "" ->
                 (List.length (tokens r cur') + b2n (ends_with_space r)
                  = S (count_args r))%nat)
      by (intros cur'; apply (IH cur')).
    destruct (IH "") as (_ & IH2). clear IH.
    assert (He : ends_with_space (String c r)
                 = if String.eqb r "" then Ascii.eqb c SP
                   else ends_with_space r)
      by (destruct r; reflexivity).
    assert (Hs : match r with
                 | String c' _ => Ascii.eqb c' SP
                 | EmptyString => false
                 end = starts_with_space r) by (destruct r; reflexivity).
    assert (Hr : String.eqb r "" = true ->
                 ends_with_space r = false /\ starts_with_space r = false)
      by (intros E; apply String.eqb_eq in E; subst r; split; reflexivity).
    cbn [tokens count_args]. rewrite He, Hs.
    change (String.eqb (String c r) "") with false.
    change (starts_with_space (String c r)) with (Ascii.eqb c SP).
    destruct (Ascii.eqb c SP) eqn:Ec.
    + clear IH1.
      assert (G : (List.length (tokens r "")
                   + b2n (if String.eqb r "" then true else ends_with_space r)
                   = b2n (negb (starts_with_space r)) + count_args r)%nat).
      { destruct (String.eqb r "").
        - destruct (Hr eq_refl) as (E1 & E2). rewrite E1, E2 in *.
          cbn [b2n negb] in *. lia.
        - cbn [b2n] in IH2. lia. }
      cbn [andb].
      change (if negb (starts_with_space r) then 1%nat else 0%nat)
        with (b2n (negb (starts_with_space r))).
      split.
      * intros Hc. destruct cur as [|x cur]; [contradiction |].
        cbn [List.length]. lia.
      * cbn [negb b2n]. lia.
    + clear IH2.
      assert (G : forall cur',
                 cur' <> "" ->
                 (List.length (tokens r cur')
                  + b2n (if String.eqb r "" then false else ends_with_space r)
                  = S (count_args r))%nat).
      { intros cur' Hc. specialize (IH1 cur' Hc).
        destruct (String.eqb r "") eqn:Er; [|exact IH1].
        destruct (Hr eq_refl) as (E1 & _). now rewrite E1 in IH1. }
      cbn [andb]. rewrite Nat.add_0_l.
      split.
      * intros Hc. apply G. destruct cur; discriminate.
      * pose proof (G (String c "")) as G'.
        cbn [negb b2n append]. cbn [append] in G'.
        rewrite Nat.add_0_r. rewrite G' by discriminate. reflexivity.
Qed.

Lemma tokens_words (cmd : string) :
  forall cur,
    no_char SP cur = true ->
    Forall (fun t => t <> "" /\ no_char SP t = true) (tokens cmd cur).
Proof.
  induction cmd as [|c r IH]; intros cur Hc; cbn [tokens].
  - destruct cur; constructor; [split; [discriminate | exact Hc] | constructor].
  - destruct (Ascii.eqb c SP) eqn:E.
    + destruct cur.
      * now apply IH.
      * constructor; [split; [discriminate | exact Hc] | now apply IH].
    + apply IH. rewrite no_char_append, Hc. simpl. now rewrite E.
Qed.

(** When the line neither starts nor ends with a space, the count of
    [cmd_to_argv] is the number of its words. *)
Lemma cmd_to_argv_tokens (cmd : string) :
  cmd <> "" -> starts_with_space cmd = false -> ends_with_space cmd = false ->
  cmd_to_argv cmd = Some (tokens cmd "").
Proof.
  intros Hne Hs He.
  destruct (tokens_count cmd "") as (_ & H).
  rewrite Hs, He in H.
  replace (String.eqb cmd "") with false in H
    by (symmetry; now apply String.eqb_neq).
  cbn [negb b2n] in H. unfold cmd_to_argv.
  replace (S (count_args cmd)) with (List.length (tokens cmd "")) by lia.
  rewrite Nat.leb_refl. now rewrite firstn_all.
Qed.

(** X5.  For a program line that does not start with a space,
    [cmd_to_argv] returns its words (the non-empty runs of characters
    other than spaces, however many spaces separate them) as long as the
    line does not end with a space; when it does, the count of arguments
    is one more than the number of words and the loop that copies them
    runs into the NULL of [strtok]. *)
Theorem cmd_to_argv_words (cmd : string) :
  cmd <> "" -> starts_with_space cmd = false ->
  (ends_with_space cmd = false ->
   cmd_to_argv cmd = Some (tokens cmd "") /\
   Forall (fun t => t <> "" /\ no_char SP t = true) (tokens cmd "")) /\
  (ends_with_space cmd = true -> cmd_to_argv cmd = None).
Proof.
  intros Hne Hs.
  destruct (tokens_count cmd "") as (_ & H).
  rewrite Hs in H.
  replace (String.eqb cmd "") with false in H
    by (symmetry; now apply String.eqb_neq).
  cbn [negb b2n] in H. unfold cmd_to_argv.
  split; intros He; rewrite He in H; cbn [b2n] in H.
  - split; [now apply cmd_to_argv_tokens | now apply tokens_words].
  - replace (Nat.leb (S (count_args cmd)) (List.length (tokens cmd "")))
      with false; [reflexivity |].
    symmetry. apply Nat.leb_gt. lia.
Qed.

Lemma cmd_to_argv_words_witness :
  cmd_to_argv "grep  -v   x" = Some ["grep"; "-v"; "x"] /\
  cmd_to_argv "grep -v x " = None.
Proof.
  destruct (cmd_to_argv_words "grep  -v   x") as (H & _);
    [discriminate | reflexivity |].
  destruct (cmd_to_argv_words "grep -v x ") as (_ & H');
    [discriminate | reflexivity |].
  split.
  - exact (proj1 (H eq_refl)).
  - exact (H' eq_refl).
Defined.

(** X6.  The first line of a block that is not blank is never taken as a
    command (not even [exit 0]): when it neither starts nor ends with a
    space, its words are the argument vector of the child; once the child
    is started both pipes are open, what the child printed at its start is
    waiting to be read, the flags are untouched and the line counter has
    moved on. *)
Theorem program_line_starts_child
        (w : world) (line : string) (prev : Z) (st : state)
        (p : positive) (prog : program) :
  ~ block_open prev st ->
  line <> "" ->
  starts_with_space line = false ->
  ends_with_space line = false ->
  w_exec w (blockCount st) (tokens line "") = Started p prog ->
  loop_body w line prev st
  = Next (blockCount st)
         (set_lineCount (lineCount st + 1)
            (set_child (Some {| pr_prog := prog; pr_hist := [];
                                pr_out := p_start prog;
                                pr_reaped := false |})
               (set_writePipe OpenFile
                  (set_readPipe OpenFile (set_pid (Z.pos p) st))))).
Proof.
  intros Ho Hne Hs He Hx. unfold loop_body.
  rewrite (line_not_blank line Hne). cbn [negb].
  unfold block_open in Ho. apply Z.eqb_neq in Ho. rewrite Ho. cbn [negb].
  unfold run_new_process.
  change (match line with
          | String c _ => Ascii.eqb c SP
          | EmptyString => false
          end) with (starts_with_space line).
  rewrite Hs.
  rewrite (cmd_to_argv_tokens line Hne Hs He). rewrite Hx. reflexivity.
Qed.

Lemma program_line_starts_child_witness :
  exists st',
    loop_body (world_of prog_cat "" "") "exit 0" 0
              (initial (world_of prog_cat "" "")) = Next 1 st' /\
    sawExit st' = false /\ pid st' = 1 /\ lineCount st' = 2.
Proof.
  eexists. split.
  - apply (program_line_starts_child
             (world_of prog_cat "" "") "exit 0" 0
             (initial (world_of prog_cat "" "")) 1%positive prog_cat).
    + unfold block_open. simpl. lia.
    + discriminate.
    + reflexivity.
    + reflexivity.
    + reflexivity.
  - repeat split.
Defined.

(** X7.  A program line that starts with a space starts nothing: no
    pipe, no child; the run ends with "Test failed on line N." for the
    current line and status 1, and no process is signalled when no child
    was left from before. *)
Theorem program_line_leading_space
        (w : world) (line : string) (prev : Z) (st : state) :
  ~ block_open prev st ->
  starts_with_space line = true ->
  pid st = -1 ->
  loop_body w line prev st
  = Stop (Exit 1 (print ("Test failed on line " ++ dec (lineCount st) ++ "."
                           ++ String NL "") st)).
Proof.
  intros Ho Hs Hp. unfold loop_body.
  assert (Hb : block_end line = false)
    by (destruct line; [discriminate Hs | reflexivity]).
  rewrite Hb. cbn [negb].
  unfold block_open in Ho. apply Z.eqb_neq in Ho. rewrite Ho. cbn [negb].
  unfold run_new_process.
  change (match line with
          | String c _ => Ascii.eqb c SP
          | EmptyString => false
          end) with (starts_with_space line).
  rewrite Hs. cbn [after]. change (negb (-1 =? 0)) with true. cbv iota.
  unfold throw_error. simpl pid. rewrite Hp. reflexivity.
Qed.

Lemma program_line_leading_space_witness :
  printed (match loop_body (world_of prog_cat "" "") " cat" 0
                           (initial (world_of prog_cat "" "")) with
           | Stop o => o
           | Next _ st => Returns st
           end)
  = "Test failed on line 1." ++ String NL "".
Proof.
  rewrite (program_line_leading_space
             (world_of prog_cat "" "") " cat" 0
             (initial (world_of prog_cat "" ""))).
  - reflexivity.
  - unfold block_open. simpl. lia.
  - reflexivity.
  - reflexivity.
Defined.

(** ** Commands *)

Lemma not_known (c : string) :
  ~ In c known_commands ->
  String.eqb c "exit" = false /\ String.eqb c "want" = false /\
  String.eqb c "send" = false /\ String.eqb c "exists" = false /\
  String.eqb c "size>" = false /\ String.eqb c "echo" = false /\
  String.eqb c "endinput" = false /\ String.eqb c "interactive" = false /\
  String.eqb c "limit" = false.
Proof.
  intros H. repeat split; apply String.eqb_neq; intros ->; apply H;
    simpl; tauto.
Qed.

(** X8.  Inside a block, a line whose first word is none of the nine
    command names (the names are compared as they are, so [Exit] or
    [exits] are none of them) ends the run with the command failure for
    the current line, whatever follows the word; the child is signalled
    by [throw_error]. *)
Theorem unknown_command_fails
        (w : world) (line : string) (prev : Z) (st : state)
        (c : string) (params : option string) :
  block_open prev st ->
  line <> "" ->
  split_command line = (Some c, params) ->
  ~ In c known_commands ->
  ((0 <? timer st) && w_deadline w (lineCount st))%bool = false ->
  loop_body w line prev st
  = Stop (throw_error ERR_COMMAND (lineCount st) None st).
Proof.
  intros Ho Hne Hs Hk Hd. unfold loop_body.
  rewrite (line_not_blank line Hne). cbn [negb].
  unfold block_open in Ho. rewrite Ho, Z.eqb_refl. cbn [negb].
  rewrite Hd, Hs. unfold handle_command.
  destruct (not_known c Hk)
    as (-> & -> & -> & -> & -> & -> & -> & -> & ->).
  reflexivity.
Qed.

Lemma unknown_command_fails_witness :
  loop_body (world_of prog_cat "" "") "Exit 0" 1 (state_with prog_cat)
  = Stop (throw_error ERR_COMMAND 1 None (state_with prog_cat)).
Proof.
  apply (unknown_command_fails (world_of prog_cat "" "") "Exit 0" 1
                               (state_with prog_cat) "Exit" (Some "0")).
  - reflexivity.
  - discriminate.
  - reflexivity.
  - simpl. intuition discriminate.
  - reflexivity.
Defined.

(** ** [want] and [send] *)

(** X9.  When a full line is waiting in the pipe, [want] takes exactly
    that line and its terminator out of the pipe and leaves the rest for
    the next read; when echo is on it prints the line before it compares
    it, so also when the comparison fails; it passes when the line is
    equal to its parameter, character by character, and fails
    otherwise. *)
Theorem want_compares_next_line
        (st : state) (c : proc) (p l rest : string) :
  readPipe st = OpenFile ->
  child st = Some c ->
  pr_out c = l ++ String NL rest ->
  plain l = true ->
  let st1 := set_child (Some (drained rest c)) st in
  let st2 := if echo st then print (l ++ String NL "") st1 else st1 in
  handle_want (Some p) st = Ret (if String.eqb l p then 2 else -1) st2.
Proof.
  intros Hr Hc Ho Hl st1 st2. unfold handle_want.
  rewrite Hr, Hc, Ho, (get_line_line _ l rest Hl). cbv beta iota zeta.
  fold st1. change (echo st1) with (echo st). fold st2.
  now destruct (String.eqb l p).
Qed.

Lemma want_compares_next_line_witness :
  rc_of (handle_want (Some "hello")
           (set_echo true
              (state_with (prog_say (text_of ["hullo"; "more"]) 0))))
  = Some (-1) /\
  printed (match handle_want (Some "hello")
                   (set_echo true
                      (state_with (prog_say (text_of ["hullo"; "more"]) 0)))
           with
           | Ret _ st => Returns st
           | _ => OutOfFuel
           end) = text_of ["hullo"].
Proof.
  rewrite (want_compares_next_line
             (set_echo true
                (state_with (prog_say (text_of ["hullo"; "more"]) 0)))
             _ "hello" "hullo" (text_of ["more"]) eq_refl eq_refl eq_refl
             eq_refl).
  split; reflexivity.
Defined.

Lemma get_line_loop_pending (input : string) :
  forall line buffer n,
    no_char NL input = true ->
    get_line_loop Pending input line buffer n = WouldBlock.
Proof.
  induction input as [|c input IH]; intros line buffer n H; [reflexivity |].
  simpl in H. apply andb_true_iff in H. destruct H as (Hc & H).
  apply negb_true_iff in Hc.
  cbn [get_line_loop]. rewrite Hc.
  destruct (Nat.ltb n (BUFF_LEN - 1)); now apply IH.
Qed.

(** X10.  While the child is alive and no full line has come from it,
    [want] neither passes nor fails: it waits.  If the child never
    completes the line, the run ends only through the alarm of a [limit]
    carried out in the block, as "Block N timed out." with status 3;
    without one ([limit] absent, or [limit 0], which arms nothing) it
    waits for ever. *)
Theorem want_waits_for_line
        (w : world) (st : state) (c : proc) (p : string) (prev : Z) :
  readPipe st = OpenFile ->
  child st = Some c ->
  ended c = None ->
  no_char NL (pr_out c) = true ->
  handle_want (Some p) st = Blocks st /\
  (block_open prev st -> p <> "" -> no_char NL p = true ->
   loop_body w ("want " ++ p) prev st
   = Stop (if 0 <? timer st
           then throw_error ERR_LIMIT (blockCount st) None st
           else Hang st)).
Proof.
  intros Hr Hc He Ho.
  assert (Hw : handle_want (Some p) st = Blocks st).
  { unfold handle_want, pipe_tail, get_line. rewrite Hr, Hc, He.
    now rewrite get_line_loop_pending. }
  split; [exact Hw |].
  intros Hb Hp Hl. unfold loop_body.
  change (block_end ("want " ++ p)) with false. cbn [negb].
  unfold block_open in Hb. rewrite Hb, Z.eqb_refl. cbn [negb].
  destruct (0 <? timer st) eqn:Ht.
  - destruct (w_deadline w (lineCount st)); cbn [andb]; [reflexivity |].
    change ("want " ++ p) with ("want" ++ String SP p).
    rewrite split_command_params by (trivial; discriminate).
    change (handle_command w (Some "want") (Some p) st)
      with (handle_want (Some p) st).
    rewrite Hw. cbn [after]. unfold blocked. now rewrite Ht.
  - cbn [andb].
    change ("want " ++ p) with ("want" ++ String SP p).
    rewrite split_command_params by (trivial; discriminate).
    change (handle_command w (Some "want") (Some p) st)
      with (handle_want (Some p) st).
    rewrite Hw. cbn [after]. unfold blocked. now rewrite Ht.
Qed.

Lemma want_waits_for_line_witness :
  exit_status
    (main (world_of prog_cat (text_of ["cat"; "limit 2"; "want x"; "exit 0"; ""])
                    "")
          ["script"]) = Some 3 /\
  handle_want (Some "x") (state_with prog_cat) = Blocks (state_with prog_cat).
Proof.
  split; [vm_compute; reflexivity |].
  apply (want_waits_for_line (world_of prog_cat "" "") (state_with prog_cat)
                             _ "x" 1 eq_refl eq_refl eq_refl eq_refl).
Defined.

(** X11.  Inside a block, [send text], for a text without [%], writes the
    text and one line terminator to the child and goes on to the next
    line when the write succeeds; when the write fails, by an error
    return or by SIGPIPE, the run ends with the command failure for the
    current line. *)
Theorem send_delivers_or_stops
        (w : world) (st : state) (c : proc) (text : string) (prev : Z) :
  writePipe st = OpenFile ->
  child st = Some c ->
  text <> "" -> no_char NL text = true -> no_char "%" text = true ->
  block_open prev st ->
  ((0 <? timer st) && w_deadline w (lineCount st))%bool = false ->
  loop_body w ("send " ++ text) prev st
  = match p_accept (pr_prog c) (pr_hist c) (text ++ String NL "") with
    | WriteOk =>
        Next prev
             (set_lineCount (lineCount st + 1)
                (set_child (Some (feed (Wrote (text ++ String NL "")) c)) st))
    | _ => Stop (throw_error ERR_COMMAND (lineCount st) None st)
    end.
Proof.
  intros Hw Hc Hne Hl Hf Hb Hd. unfold loop_body.
  change (block_end ("send " ++ text)) with false. cbn [negb].
  unfold block_open in Hb. rewrite Hb, Z.eqb_refl. cbn [negb]. rewrite Hd.
  change ("send " ++ text) with ("send" ++ String SP text).
  rewrite split_command_params by (trivial; discriminate).
  change (handle_command w (Some "send") (Some text) st)
    with (handle_send (Some text) st).
  unfold handle_send. rewrite Hw, Hc. cbv zeta.
  rewrite format_noargs_plain
    by (rewrite no_char_append, Hf; reflexivity).
  destruct (p_accept (pr_prog c) (pr_hist c) (text ++ String NL ""));
    reflexivity.
Qed.

Lemma send_delivers_or_stops_witness :
  loop_body (world_of prog_deaf "" "") "send hello" 1 (state_with prog_deaf)
  = Stop (throw_error ERR_COMMAND 1 None (state_with prog_deaf)).
Proof.
  apply (send_delivers_or_stops (world_of prog_deaf "" "")
                                (state_with prog_deaf) _ "hello" 1
                                eq_refl eq_refl).
  - discriminate.
  - reflexivity.
  - reflexivity.
  - reflexivity.
  - reflexivity.
Defined.

Lemma send_want_round_trip_witness :
  exists st1 st2,
    handle_send (Some "two  words") (state_with prog_cat) = Ret 3 st1 /\
    option_map pr_hist (child st1)
    = Some ([] ++ [Wrote ("two  words" ++ String NL "")])%list /\
    handle_want (Some "two  words") st1 = Ret 2 st2 /\
    option_map pr_out (child st2) = Some "".
Proof.
  exact (send_want_round_trip (state_with prog_cat) _ "two  words"
                              eq_refl eq_refl eq_refl eq_refl eq_refl eq_refl
                              eq_refl eq_refl).
Defined.

Lemma well_formed_script_runs_witness :
  (exists st,
      main (world_of (prog_say "" 0)
                     (text_of (script_lines
                                 [ {| b_program := "true";
                                      b_commands := ["limit 5"; "exit 0"] |} ]))
                     "")
           ["script"] = Exit 0 st) \/
  stopped_at_line
    (world_of (prog_say "" 0)
              (text_of (script_lines
                          [ {| b_program := "true";
                               b_commands := ["limit 5"; "exit 0"] |} ]))
              "")
    ["script"].
Proof.
  apply (well_formed_script_runs
           (world_of (prog_say "" 0)
                     (text_of (script_lines
                                 [ {| b_program := "true";
                                      b_commands := ["limit 5"; "exit 0"] |} ]))
                     "")
           "script" []
           [ {| b_program := "true"; b_commands := ["limit 5"; "exit 0"] |} ]).
  - reflexivity.
  - constructor; [|constructor].
    unfold well_formed, line_ok. simpl b_program. simpl b_commands.
    split; [split; [reflexivity | discriminate] |].
    split; [|reflexivity].
    constructor; [split; [reflexivity | discriminate] |].
    constructor; [split; [reflexivity | discriminate] | constructor].
  - constructor; [|constructor].
    unfold no_endinput. simpl. intuition discriminate.
Defined.


(** ** [endinput] followed by [exit] *)

(** X15.  [endinput] on the open pipe always passes: it returns 7, closes
    the pipe, and the child sees the end of its input after everything
    that was sent.  When the child answers the end of its input by
    exiting with code [n], a following [exit n] passes and leaves the
    [exit] flag up. *)
Theorem endinput_then_exit (st : state) (c : proc) (n : Z) :
  writePipe st = OpenFile ->
  child st = Some c ->
  sawExit st = false ->
  pr_reaped c = false ->
  0 <= n <= 255 ->
  p_end (pr_prog c) (pr_hist c ++ [ClosedInput]) = Some (Exited n) ->
  exists st1 st2,
    handle_endinput st = Ret 7 st1 /\
    writePipe st1 = ClosedFile /\
    option_map pr_hist (child st1) = Some (pr_hist c ++ [ClosedInput])%list /\
    handle_exit (Some (dec n)) st1 = Ret 1 st2 /\
    sawExit st2 = true.
Proof.
  intros Hw Hc Hs Hr Hn He.
  set (c1 := feed ClosedInput c).
  set (st1 := set_child (Some c1) (set_writePipe ClosedFile st)).
  assert (E1 : handle_endinput st = Ret 7 st1).
  { unfold handle_endinput. now rewrite Hw, Hc. }
  assert (E2 : handle_exit (Some (dec n)) st1
               = exit_test n (set_childStatus (wait_status (Exited n))
                                (set_child (Some (reaped c1))
                                   (set_sawExit true st1)))).
  { apply (handle_exit_waits st1 c1 (Exited n) (dec n) n NUL); trivial.
    - apply scan_d_c_dec_end.
    - unfold INT_MAX. lia. }
  destruct (exit_test_decides (Exited n) n
              (set_childStatus (wait_status (Exited n))
                 (set_child (Some (reaped c1)) (set_sawExit true st1))))
    as [(E3 & _) | (_ & E3)]; [exact Hn | reflexivity | | congruence].
  exists st1. eexists. repeat split.
  - exact E1.
  - rewrite E2. exact E3.
  - reflexivity.
Qed.

Lemma endinput_then_exit_witness :
  exists st1 st2,
    handle_endinput (state_with prog_cat) = Ret 7 st1 /\
    writePipe st1 = ClosedFile /\
    option_map pr_hist (child st1) = Some ([] ++ [ClosedInput])%list /\
    handle_exit (Some (dec 0)) st1 = Ret 1 st2 /\
    sawExit st2 = true.
Proof.
  apply (endinput_then_exit (state_with prog_cat) _ 0
                            eq_refl eq_refl eq_refl eq_refl).
  - lia.
  - reflexivity.
Defined.

(** ** [limit], [size>] and [echo] *)

(** X16.  The first [limit n] of a block, for [n] from 0 to [INT_MAX],
    passes and arms the alarm with [n] seconds ([limit 0] arms nothing);
    after it every further [limit] of the block fails, whatever its
    parameter, and changes nothing. *)
Theorem limit_arms_once (st : state) (n : Z) :
  sawLimit st = false ->
  0 <= n <= INT_MAX ->
  handle_limit (Some (dec n)) st
  = Ret 9 (set_sawLimit true (set_timer n st)) /\
  forall params,
    handle_limit params (set_sawLimit true (set_timer n st))
    = Ret (-1) (set_sawLimit true (set_timer n st)).
Proof.
  intros Hs Hn. split.
  - unfold handle_limit. rewrite Hs, scan_d_c_dec_end. cbv beta iota.
    rewrite (in_int_nonneg n Hn). cbn [negb].
    change (is_delimiter NUL) with true. cbn [negb].
    unfold alarm. unfold INT_MAX in Hn.
    rewrite Z.mod_small by lia. reflexivity.
  - intros params. reflexivity.
Qed.

Lemma limit_arms_once_witness :
  handle_limit (Some "0") (state_with prog_cat)
  = Ret 9 (set_sawLimit true (set_timer 0 (state_with prog_cat))) /\
  forall params,
    handle_limit params (set_sawLimit true (set_timer 0 (state_with prog_cat)))
    = Ret (-1) (set_sawLimit true (set_timer 0 (state_with prog_cat))).
Proof.
  apply (limit_arms_once (state_with prog_cat) 0).
  - reflexivity.
  - unfold INT_MAX. lia.
Defined.

Lemma take_word_word (word rest : string) :
  no_space word = true -> word_end rest = true ->
  take_word (word ++ rest) = (word, rest).
Proof.
  intros Hw Hr. induction word as [|c word IH]; cbn [append take_word].
  - destruct rest as [|x rest]; [reflexivity |].
    cbn [word_end] in Hr. cbn [take_word]. now rewrite Hr.
  - cbn [no_space] in Hw. apply andb_true_iff in Hw. destruct Hw as (Hc & Hw).
    apply negb_true_iff in Hc. now rewrite Hc, (IH Hw).
Qed.

Lemma scan_s_word (word rest : string) :
  word <> "" -> no_space word = true -> word_end rest = true ->
  scan_s (word ++ rest) = Some (word, rest).
Proof.
  intros Hne Hw Hr. unfold scan_s.
  destruct word as [|c word]; [contradiction |].
  pose proof Hw as Hw'. simpl in Hw'.
  apply andb_true_iff in Hw'. destruct Hw' as (Hc & _).
  apply negb_true_iff in Hc.
  cbn [append skip_space]. rewrite Hc.
  change (String c (word ++ rest)) with (String c word ++ rest).
  now rewrite take_word_word.
Qed.

(** X17.  [size> n path] passes exactly when [stat] succeeds on the path
    and the size is strictly greater than [n]; a file of exactly [n]
    bytes fails.  The path is the first word after the number: what
    follows it is ignored. *)
Theorem size_passes_iff_larger
        (w : world) (st : state) (n : Z) (path rest : string) :
  in_int n = true ->
  path <> "" -> no_space path = true -> word_end rest = true ->
  handle_size w (Some (dec n ++ String SP (path ++ rest))) st
  = Ret (match w_stat w path with
         | Some st_size => if n <? st_size then 5 else -1
         | None => -1
         end) st.
Proof.
  intros Hn Hne Hp Hr. unfold handle_size.
  rewrite scan_d_dec by reflexivity. rewrite Hn. cbn [negb].
  assert (Hs : scan_s (String SP (path ++ rest)) = Some (path, rest)).
  { unfold scan_s. cbn [skip_space]. change (isspace SP) with true. cbv iota.
    exact (scan_s_word path rest Hne Hp Hr). }
  rewrite Hs. destruct (w_stat w path) as [sz|]; [|reflexivity].
  rewrite Z.ltb_antisym. now destruct (sz <=? n).
Qed.

Lemma size_passes_iff_larger_witness :
  handle_size {| w_exec := fun _ _ => SysFail 0;
                 w_fopen := fun _ => None;
                 w_stdin := "";
                 w_access := fun _ => true;
                 w_stat := fun _ => Some 10;
                 w_deadline := fun _ => false |}
              (Some (dec 10 ++ String SP ("out.txt" ++ " and more")))
              (state_with prog_cat)
  = Ret (-1) (state_with prog_cat).
Proof.
  apply (size_passes_iff_larger
           {| w_exec := fun _ _ => SysFail 0;
              w_fopen := fun _ => None;
              w_stdin := "";
              w_access := fun _ => true;
              w_stat := fun _ => Some 10;
              w_deadline := fun _ => false |}
           (state_with prog_cat) 10 "out.txt" " and more").
  - reflexivity.
  - discriminate.
  - reflexivity.
  - reflexivity.
Defined.

(** X18.  [echo] looks at the first word of its parameters only: [on]
    sets the flag, [off] clears it, whatever follows; any other word
    fails and leaves the flag as it was. *)
Theorem echo_first_word (st : state) (word rest : string) :
  word <> "" -> no_space word = true -> word_end rest = true ->
  handle_echo (Some (word ++ rest)) st
  = if String.eqb word "on" then Ret 6 (set_echo true st)
    else if String.eqb word "off" then Ret 6 (set_echo false st)
         else Ret (-1) st.
Proof.
  intros Hne Hw Hr. unfold handle_echo, scan_word.
  rewrite (scan_s_word word rest Hne Hw Hr).
  destruct (String.eqb word "on"), (String.eqb word "off"); reflexivity.
Qed.

Lemma echo_first_word_witness :
  handle_echo (Some ("on" ++ " please")) (state_with prog_cat)
  = Ret 6 (set_echo true (state_with prog_cat)).
Proof.
  apply (echo_first_word (state_with prog_cat) "on" " please").
  - discriminate.
  - reflexivity.
  - reflexivity.
Defined.

(** ** [main] *)

(** X19.  When the script file cannot be opened, nothing is read or
    started: the run prints "Failed to open PATH." and ends with status
    4, and no process is signalled.  Arguments after the first are
    ignored. *)
Theorem main_open_failure (w : world) (path : string) (more : list string) :
  w_fopen w path = None ->
  main w (path :: more)
  = Exit 4 (print ("Failed to open " ++ path ++ "." ++ String NL "")
                  (initial w)).
Proof.
  intros H. unfold main, get_input_source. now rewrite H.
Qed.

Lemma main_open_failure_witness :
  printed (main world_without_files ["missing"; "ignored"])
  = "Failed to open missing." ++ String NL "".
Proof.
  rewrite (main_open_failure world_without_files "missing" ["ignored"]
                             eq_refl).
  reflexivity.
Defined.

(** ** [interactive] *)

Lemma text_of_app (a b : list string) :
  text_of (a ++ b) = text_of a ++ text_of b.
Proof.
  induction a as [|l a IH]; [reflexivity |].
  change (text_of ((l :: a) ++ b))
    with (l ++ String NL (text_of (a ++ b))).
  change (text_of (l :: a)) with (l ++ String NL (text_of a)).
  rewrite IH, append_assoc. reflexivity.
Qed.

Lemma text_of_length (ls more : list string) :
  (List.length ls <= String.length (text_of (ls ++ more)))%nat.
Proof.
  induction ls as [|l ls IH]; [simpl; lia |].
  cbn [List.app text_of List.length]. rewrite length_append. simpl. lia.
Qed.

Lemma interactive_loop_forwards (word : string) (rest : list string) :
  plain word = true ->
  forall ls fuel st c,
    (List.length ls < fuel)%nat ->
    writePipe st = OpenFile ->
    child st = Some c ->
    always_accepts (pr_prog c) ->
    Forall (fun l => plain l = true /\ no_char "%" l = true /\ l <> word) ls ->
    stdin st = text_of (ls ++ word :: rest) ->
    exists st',
      interactive_loop fuel word st = Ret 8 st' /\
      stdin st' = text_of rest /\
      option_map pr_hist (child st') = Some (pr_hist c ++ sent ls)%list /\
      writePipe st' = OpenFile.
Proof.
  intros Hword.
  induction ls as [|l ls IH]; intros fuel st c Hf Hw Hc Ha Hl Hs.
  - destruct fuel as [|f]; [simpl in Hf; lia |].
    cbn [interactive_loop]. unfold read_stdin, get_line_file.
    rewrite Hs. cbn [List.app text_of].
    rewrite (get_line_line AtEOF word _ Hword), String.eqb_refl.
    eexists. split; [reflexivity |]. simpl. rewrite Hc. simpl.
    rewrite app_nil_r. auto.
  - destruct fuel as [|f]; [simpl in Hf; lia |].
    inversion Hl as [|? ? (Hp & Hpc & Hne) Hl']; subst.
    cbn [interactive_loop]. unfold read_stdin, get_line_file.
    rewrite Hs. cbn [List.app text_of].
    rewrite (get_line_line AtEOF l _ Hp).
    replace (String.eqb l word) with false
      by (symmetry; now apply String.eqb_neq).
    unfold handle_send. simpl writePipe. simpl child. rewrite Hw, Hc.
    cbv zeta.
    rewrite format_noargs_plain
      by (rewrite no_char_append, Hpc; reflexivity).
    rewrite Ha.
    destruct (IH f
                (set_child (Some (feed (Wrote (l ++ String NL "")) c))
                   (set_stdin (text_of (ls ++ word :: rest)) st))
                (feed (Wrote (l ++ String NL "")) c))
      as (st' & E & Hi & Hh & Hw'); trivial.
    + simpl in Hf. lia.
    + exists st'. repeat split; trivial.
      rewrite Hh. simpl. now rewrite <- app_assoc.
Qed.

(** X20.  [interactive W], with a child that takes every write, forwards
    the lines of standard input that come before the first line equal to
    the word [W], in order and each with its line terminator, and leaves
    standard input right after that line.  [W] is the first word of the
    parameters; the lines are lines without [%]. *)
Theorem interactive_forwards_lines
        (st : state) (c : proc) (word after_word : string)
        (ls rest : list string) :
  writePipe st = OpenFile ->
  child st = Some c ->
  always_accepts (pr_prog c) ->
  word <> "" -> no_space word = true -> no_char NUL word = true ->
  word_end after_word = true ->
  Forall (fun l => plain l = true /\ no_char "%" l = true /\ l <> word) ls ->
  stdin st = text_of (ls ++ word :: rest) ->
  exists st',
    handle_interactive (Some (word ++ after_word)) st = Ret 8 st' /\
    stdin st' = text_of rest /\
    option_map pr_hist (child st') = Some (pr_hist c ++ sent ls)%list /\
    writePipe st' = OpenFile.
Proof.
  intros Hw Hc Ha Hne Hsp Hnul He Hl Hs.
  unfold handle_interactive, scan_word.
  rewrite (scan_s_word word after_word Hne Hsp He).
  apply (interactive_loop_forwards word rest) with (ls := ls); trivial.
  - unfold plain. rewrite Hnul. simpl.
    clear - Hsp. induction word as [|x word IH]; [reflexivity |].
    simpl in *. apply andb_true_iff in Hsp. destruct Hsp as (Hx & Hsp).
    rewrite (IH Hsp), andb_true_r.
    apply negb_true_iff. apply Ascii.eqb_neq. intros ->. discriminate Hx.
  - rewrite Hs. pose proof (text_of_length ls (word :: rest)). lia.
Qed.

Lemma interactive_forwards_lines_witness :
  exists st',
    handle_interactive (Some ("END" ++ " of input"))
      (set_stdin (text_of (["one"; "two"] ++ "END" :: ["exit 0"]))
                 (state_with prog_cat)) = Ret 8 st' /\
    stdin st' = text_of ["exit 0"] /\
    option_map pr_hist (child st') = Some ([] ++ sent ["one"; "two"])%list /\
    writePipe st' = OpenFile.
Proof.
  apply (interactive_forwards_lines
           (set_stdin (text_of (["one"; "two"] ++ "END" :: ["exit 0"]))
                      (state_with prog_cat))
           _ "END" " of input" ["one"; "two"] ["exit 0"]
           eq_refl eq_refl).
  - intros h bytes. reflexivity.
  - discriminate.
  - reflexivity.
  - reflexivity.
  - reflexivity.
  - repeat constructor; discriminate.
  - reflexivity.
Defined.

(** ** Counters and flags *)

Lemma loop_body_next_line (w : world) line prev st prev' st' :
  loop_body w line prev st = Next prev' st' ->
  lineCount st' = lineCount st + 1 /\ script st' = script st.
Proof.
  unfold loop_body.
  destruct (negb (block_end line)).
  - destruct (negb (prev =? blockCount st)).
    + destruct (run_new_process w line st) as [rc s1| | | | |] eqn:R;
        simpl; try discriminate.
      apply run_new_process_kept in R. destruct R as (_ & Hl & Hs & _).
      destruct (negb (rc =? 0)); [discriminate |].
      intros H. inversion H; subst. simpl. rewrite Hl, Hs. auto.
    + destruct ((0 <? timer st) && w_deadline w (lineCount st))%bool;
        [discriminate |].
      destruct (split_command line) as [command params].
      destruct (handle_command w command params st) as [rc s1| | | | |] eqn:R;
        simpl; try discriminate.
      apply handle_command_kept in R. destruct R as [_ Hl Hs _ _].
      destruct (rc =? -1); [discriminate |].
      intros H. inversion H; subst. simpl. rewrite Hl, Hs. auto.
  - unfold end_block. intros H. returned H. simpl. auto.
Qed.

Lemma skipn_next {A : Type} (n : nat) (ls : list A) (x : A) (tl : list A) :
  skipn n ls = x :: tl -> skipn (S n) ls = tl /\ (S n <= List.length ls)%nat.
Proof.
  revert ls. induction n as [|n IH]; intros ls H.
  - simpl in H. subst ls. simpl. split; [reflexivity | lia].
  - destruct ls as [|y ls]; [discriminate |].
    simpl in H. apply IH in H. destruct H as (H1 & H2).
    split; [exact H1 | simpl; lia].
Qed.

(** X21.  For a script read from a file, the line counter is the number
    of the line the loop is about to read, counted from 1: every line,
    be it a program line, a command or a blank line, moves it on by one,
    so that "Test failed on line N." names the N-th line of the file. *)
Theorem line_counter_counts_lines
        (w : world) (path : string) (more ls : list string)
        (k : nat) (cmds : list string) (prev : Z) (input : source)
        (st : state) :
  w_fopen w path = Some (text_of ls) ->
  Forall (fun l => plain l = true) ls ->
  reach w (path :: more) k cmds prev input st ->
  input = FromFile /\
  exists n,
    (n <= List.length ls)%nat /\
    script st = text_of (skipn n ls) /\
    lineCount st = Z.of_nat n + 1.
Proof.
  intros Ho Hp R.
  induction R as [input st0 H0 | k cmds prev input st line st1 prev' st2 R IH P L B].
  - unfold get_input_source in H0. rewrite Ho in H0.
    inversion H0; subst. split; [reflexivity |].
    exists 0%nat. simpl. repeat split; lia.
  - destruct IH as (-> & n & Hn & Hs & Hl).
    split; [reflexivity |].
    destruct (skipn n ls) as [|l tl] eqn:Ek.
    + exfalso. unfold read_input, get_line_file in L.
      rewrite Hs in L. simpl in L. discriminate.
    + assert (Hpl : plain l = true).
      { assert (Hin : In l (skipn n ls)) by (rewrite Ek; now left).
        rewrite Forall_forall in Hp. apply Hp.
        rewrite <- (firstn_skipn n ls). apply in_or_app. now right. }
      rewrite (read_line l tl st Hpl Hs) in L.
      inversion L; subst line st1.
      destruct (skipn_next n ls l tl Ek) as (Ek' & Hn').
      destruct (loop_body_next_line _ _ _ _ _ _ B) as (Hl' & Hs').
      exists (S n). rewrite Ek', Hs', Hl'. simpl script. simpl lineCount.
      repeat split; trivial; lia.
Qed.

Lemma line_counter_counts_lines_witness :
  exists n st,
    (n <= List.length ["true"; "exit 0"])%nat /\
    script st = text_of (skipn n ["true"; "exit 0"]) /\
    lineCount st = Z.of_nat n + 1.
Proof.
  edestruct (line_counter_counts_lines
               (world_of (prog_say "" 0) (text_of ["true"; "exit 0"]) "")
               "script" [] ["true"; "exit 0"])
    as (E & n & Hn & Hs & Hl).
  - reflexivity.
  - repeat constructor.
  - eapply reach_step.
    + apply reach_start. reflexivity.
    + reflexivity.
    + vm_compute; reflexivity.
    + vm_compute; reflexivity.
  - exists n. eexists. repeat split; eassumption.
Defined.

(** X22.  At the top of the loop, the block counter is one more than the
    number of blocks closed so far, and the [exit] flag is up exactly
    when a block is open and an [exit] was carried out in it: the flag
    never survives the blank line that closes a block. *)
Theorem exit_flag_tracks_exit
        (w : world) (args : list string) (k : nat) (cmds : list string)
        (prev : Z) (input : source) (st : state) :
  reach w args k cmds prev input st ->
  blockCount st = Z.of_nat k + 1 /\
  (sawExit st = true <-> block_open prev st /\ In "exit" cmds).
Proof.
  intros R.
  pose proof (reach_inv _ _ _ _ _ _ _ R) as (Hk & He & _).
  split; [exact Hk |]. split; [exact He |].
  intros (Ho & Hx).
  destruct (reach_pipes w _ _ _ _ _ _ R Ho) as (_ & _ & _ & H).
  exact (H Hx).
Qed.

Lemma exit_flag_tracks_exit_witness :
  exists k cmds prev st,
    blockCount st = Z.of_nat k + 1 /\
    (sawExit st = true <-> block_open prev st /\ In "exit" cmds) /\
    sawExit st = true.
Proof.
  edestruct (exit_flag_tracks_exit
               (world_of (prog_say "" 0) (text_of ["true"; "exit 0"; ""]) "")
               ["script"]) as (Hk & He).
  - eapply reach_step.
    + eapply reach_step.
      * apply reach_start. reflexivity.
      * reflexivity.
      * vm_compute; reflexivity.
      * vm_compute; reflexivity.
    + reflexivity.
    + vm_compute; reflexivity.
    + vm_compute; reflexivity.
  - do 4 eexists. split; [exact Hk |]. split; [exact He | reflexivity].
Defined.

(** ** Exit statuses *)











(** ** [exists] *)

(** X24.  On a line [exists path] inside a block, the path is the whole
    rest of the line, spaces included: the line passes when [access]
    finds that path and is reported as a failed test otherwise. *)
Theorem exists_line_checks_path
        (w : world) (st : state) (prev : Z) (path : string) :
  path <> "" -> no_char NL path = true ->
  block_open prev st ->
  ((0 <? timer st) && w_deadline w (lineCount st))%bool = false ->
  loop_body w ("exists" ++ String SP path) prev st
  = if w_access w path
    then Next prev (set_lineCount (lineCount st + 1) st)
    else Stop (throw_error ERR_COMMAND (lineCount st) None st).
Proof.
  intros Hp Hl Ho Hd. unfold block_open in Ho. unfold loop_body.
  change (block_end ("exists" ++ String SP path)) with false. cbn [negb].
  rewrite Ho, Z.eqb_refl. cbn [negb]. rewrite Hd.
  rewrite (split_command_params "exists" path) by (trivial; discriminate).
  unfold handle_command, handle_exists, after.
  change ("exists" =? "exit")%string with false.
  change ("exists" =? "want")%string with false.
  change ("exists" =? "send")%string with false.
  change ("exists" =? "exists")%string with true.
  cbv iota.
  destruct (w_access w path); reflexivity.
Qed.

Lemma exists_line_checks_path_witness :
  loop_body {| w_exec := fun _ _ => SysFail 0;
               w_fopen := fun _ => None;
               w_stdin := "";
               w_access := fun p => String.eqb p "my file";
               w_stat := fun _ => None;
               w_deadline := fun _ => false |}
            ("exists" ++ String SP "my file") 1 (state_with prog_cat)
  = Next 1 (set_lineCount (lineCount (state_with prog_cat) + 1)
                          (state_with prog_cat)).
Proof.
  apply (exists_line_checks_path
           {| w_exec := fun _ _ => SysFail 0;
              w_fopen := fun _ => None;
              w_stdin := "";
              w_access := fun p => String.eqb p "my file";
              w_stat := fun _ => None;
              w_deadline := fun _ => false |}
           (state_with prog_cat) 1 "my file").
  - discriminate.
  - reflexivity.
  - reflexivity.
  - reflexivity.
Defined.
